(** * Mask / gender / age classification pipeline: training and inference bookkeeping

    Shallow embedding of [baseline/train.py] and [baseline/inference.py].

    The tensor runtime, the model, the criterion and the optimisers are
    external collaborators: they appear as Section variables.  What is
    embedded is the code of the two files: the run-directory allocator,
    the two epoch loops with their running metrics and checkpoint
    decisions, and the inference runner with its result table. *)

From Stdlib Require Import ZArith QArith Bool List Lia String Ascii.
From Stdlib Require Import DecimalString DecimalPos DecimalN.
From stdpp Require Import gmap strings.
Import ListNotations.

Local Open Scope string_scope.
Local Open Scope Z_scope.

(* ===================================================================== *)
(** * Exceptions and results *)
(* ===================================================================== *)

(** The Python exceptions the two files can raise on their own paths. *)
Inductive exn : Type :=
| ZeroDivisionError
| AssertionError
| ValueError
| RuntimeError
| AttributeError
| KeyError (column : string).

Inductive result (A : Type) : Type :=
| Ok (a : A)
| Raise (e : exn).

Arguments Ok {A} a.
Arguments Raise {A} e.

(* ===================================================================== *)
(** * increment_path (train.py, lines 100-115) *)
(* ===================================================================== *)

Module IncrementPath.

(** The file system is the list of the paths that exist, each written the
    way [str(Path(..))] prints it.  [path] below is the [Path] object,
    represented by that same string; it is assumed to carry no glob
    metacharacter and its stem no regular-expression metacharacter, so
    that [f"{path}*"] and [rf"%s(\d+)" % path.stem] mean what they
    look like. *)
Definition fsys := list string.

(** [path.exists()] *)
Definition exists_ (fs : fsys) (path : string) : bool :=
  List.existsb (String.eqb path) fs.

Definition is_slash (c : ascii) : bool := Ascii.eqb c "/"%char.
Definition is_dot (c : ascii) : bool := Ascii.eqb c "."%char.

(** [\d] on ASCII text. *)
Definition is_digit (c : ascii) : bool :=
  let n := nat_of_ascii c in (48 <=? n)%nat && (n <=? 57)%nat.

Fixpoint has_slash (s : string) : bool :=
  match s with
  | EmptyString => false
  | String c s' => is_slash c || has_slash s'
  end.

(** [strip_prefix p s] is [Some r] when [s = p ++ r]. *)
Fixpoint strip_prefix (p s : string) : option string :=
  match p, s with
  | EmptyString, _ => Some s
  | String a p', String b s' =>
      if Ascii.eqb a b then strip_prefix p' s' else None
  | String _ _, EmptyString => None
  end.

(** [glob.glob(f"{path}*")]: the entries of [path]'s directory whose name
    starts with [path]'s name; [*] does not cross a separator. *)
Definition glob_star (fs : fsys) (path : string) : list string :=
  List.filter (fun d => match strip_prefix path d with
                   | Some r => negb (has_slash r)
                   | None => false
                   end) fs.

(** [path.name]: the text after the last separator. *)
Fixpoint name_of (s : string) : string :=
  match s with
  | EmptyString => EmptyString
  | String c s' => if has_slash s then name_of s' else s
  end.

(** [name.rfind('.')], as a position counted from the left. *)
Fixpoint rfind_dot (s : string) : option nat :=
  match s with
  | EmptyString => None
  | String c s' =>
      match rfind_dot s' with
      | Some i => Some (S i)
      | None => if is_dot c then Some O else None
      end
  end.

(** [path.stem]: the name without its last suffix; a leading or a
    trailing dot does not start a suffix ([0 < i < len(name) - 1]). *)
Definition stem (path : string) : string :=
  let name := name_of path in
  match rfind_dot name with
  | Some i =>
      if ((0 <? i)%nat && (i <? String.length name - 1)%nat)%bool
      then substring 0 i name else name
  | None => name
  end.

(** The greedy [\d+]: the longest run of digits at the head of [s]. *)
Fixpoint take_digits (s : string) : string :=
  match s with
  | EmptyString => EmptyString
  | String c s' => if is_digit c then String c (take_digits s') else EmptyString
  end.

(** The pattern [stem(\d+)] tried at the head of [d]. *)
Definition match_here (st d : string) : option string :=
  match strip_prefix st d with
  | Some r => match take_digits r with
              | EmptyString => None
              | ds => Some ds
              end
  | None => None
  end.

(** [re.search(stem(\d+), d)]: the leftmost match; the value is
    [m.groups()[0]]. *)
Fixpoint re_search (st d : string) : option string :=
  match match_here st d with
  | Some ds => Some ds
  | None => match d with
            | EmptyString => None
            | String _ d' => re_search st d'
            end
  end.

(** [int(..)] on a run of ASCII digits. *)
Definition int_of_digits (ds : string) : Z :=
  let fix go (acc : Z) (s : string) : Z :=
    match s with
    | EmptyString => acc
    | String c s' => go (10 * acc + (Z.of_nat (nat_of_ascii c) - 48)) s'
    end in
  go 0 ds.

(** [f"{n}"] for an integer [n >= 0]. *)
Definition str_of_int (n : Z) : string :=
  NilEmpty.string_of_uint (N.to_uint (Z.to_N n)).

(** [max(i)] for a non-empty list. *)
Definition max_list (i : list Z) : Z :=
  match i with
  | [] => 0
  | x :: xs => fold_left Z.max xs x
  end.

(** [[int(m.groups()[0]) for m in matches if m]] *)
Definition suffixes (st : string) (dirs : list string) : list Z :=
  flat_map (fun d => match re_search st d with
                     | Some ds => [int_of_digits ds]
                     | None => []
                     end) dirs.

Definition increment_path (fs : fsys) (path : string) (exist_ok : bool) : string :=
  if (exists_ fs path && exist_ok) || negb (exists_ fs path) then path
  else
    let dirs := glob_star fs path in
    let i := suffixes (stem path) dirs in
    let n := match i with [] => 2 | _ => max_list i + 1 end in
    path ++ str_of_int n.

End IncrementPath.


(* ===================================================================== *)
(** * Numbers *)
(* ===================================================================== *)

(** Python floats and numpy [float64] scalars: the finite values are kept
    exact (rationals, no rounding), the special values follow IEEE 754.
    Integers ([int], counts, sizes) are [Z]. *)
Inductive fnum : Type :=
| Fin (q : Q)
| PInf
| NInf
| NaN.

Definition of_Z (z : Z) : fnum := Fin (inject_Z z).

(** The initial value [0] of an accumulator. *)
Definition fzero : fnum := Fin 0.

(** [np.inf] *)
Definition np_inf : fnum := PInf.

Definition fadd (a b : fnum) : fnum :=
  match a, b with
  | NaN, _ | _, NaN => NaN
  | PInf, NInf | NInf, PInf => NaN
  | PInf, _ | _, PInf => PInf
  | NInf, _ | _, NInf => NInf
  | Fin x, Fin y => Fin (x + y)
  end.

(** Division of numpy scalars: a zero divisor gives [nan] or an infinity
    (with a [RuntimeWarning]), never an exception. *)
Definition np_div (a b : fnum) : fnum :=
  match a, b with
  | NaN, _ | _, NaN => NaN
  | Fin x, Fin y =>
      if Qeq_bool y 0 then
        (if Qeq_bool x 0 then NaN else if Qle_bool 0 x then PInf else NInf)
      else Fin (x / y)
  | Fin _, (PInf | NInf) => Fin 0
  | PInf, Fin y => if Qle_bool 0 y then PInf else NInf
  | NInf, Fin y => if Qle_bool 0 y then NInf else PInf
  | (PInf | NInf), (PInf | NInf) => NaN
  end.

(** [a < b]; every comparison with [nan] is false. *)
Definition flt (a b : fnum) : bool :=
  match a, b with
  | NaN, _ | _, NaN => false
  | Fin x, Fin y => negb (Qle_bool y x)
  | NInf, (Fin _ | PInf) => true
  | Fin _, PInf => true
  | _, _ => false
  end.

(** [a > b] *)
Definition fgt (a b : fnum) : bool := flt b a.

(** The builtin [min(a, b)]: [b] when [b < a], else [a]. *)
Definition py_min (a b : fnum) : fnum := if flt b a then b else a.

(** The builtin [max(a, b)]: [b] when [b > a], else [a]. *)
Definition py_max (a b : fnum) : fnum := if fgt b a then b else a.

(** Python's [x / n] for a float or an int [x] and an int [n]: a zero
    divisor raises. *)
Definition py_truediv (a : fnum) (n : Z) : result fnum :=
  if n =? 0 then Raise ZeroDivisionError else Ok (np_div a (of_Z n)).

(** [np.sum] of a list of floats; the empty sum is [0.0]. *)
Definition np_sum (l : list fnum) : fnum := fold_left fadd l fzero.

(** [np.sum] of a list of ints, read as a float by the division that
    follows it. *)
Definition np_sum_int (l : list Z) : fnum := of_Z (fold_left Z.add l 0).


Definition is_nan (a : fnum) : bool :=
  match a with NaN => true | _ => false end.

(* ===================================================================== *)
(** * DataLoader *)
(* ===================================================================== *)

Section DataLoader.
Context {A : Type}.

Fixpoint batches_fuel (fuel : nat) (batch_size : nat) (drop_last : bool)
         (l : list A) : list (list A) :=
  match fuel with
  | O => []
  | S fuel' =>
      match l with
      | [] => []
      | _ :: _ =>
          if (length l <? batch_size)%nat
          then (if drop_last then [] else [l])
          else firstn batch_size l
               :: batches_fuel fuel' batch_size drop_last (skipn batch_size l)
      end
  end.

(** The batches an iteration over [DataLoader(data, batch_size,
    shuffle=False, drop_last)] yields, in order. *)
Definition batches (batch_size : nat) (drop_last : bool) (l : list A)
  : list (list A) :=
  batches_fuel (length l) batch_size drop_last l.

(** [len(loader)] *)
Definition loader_len (batch_size : nat) (drop_last : bool) (l : list A) : nat :=
  if drop_last then (length l / batch_size)%nat
  else ((length l + batch_size - 1) / batch_size)%nat.

End DataLoader.

(* ===================================================================== *)
(** * mask_grid_image and gender_age_grid_image (train.py, lines 38-97) *)
(* ===================================================================== *)

(** [int(np.ceil(n ** 0.5))]: the least [r] with [n <= r * r].  The root
    is taken in double precision; for the image counts of a figure it is
    a whole number exactly when [n] is a square. *)
Definition n_grid (n : nat) : nat :=
  let r := Nat.sqrt n in if (r * r =? n)%nat then r else S r.

(** One [plt.subplot(n_grid, n_grid, idx + 1, title=title)] and the
    position [choice] of the image, the label and the prediction it
    shows. *)
Record subplot : Type := { sp_grid : nat; sp_index : nat; sp_choice : nat }.

(** The two functions differ in their titles only.  [batch_size] is
    [np_images.shape[0]]; [drawn] is what
    [random.choices(range(batch_size), k=n)] returns when [shuffle] is
    set.  The value is the list of the subplots of the figure. *)
Definition mask_grid_image (batch_size n : nat) (shuffle : bool) (drawn : list nat)
  : result (list subplot) :=
  if (n <=? batch_size)%nat then
    let choices := if shuffle then drawn else seq 0 n in
    Ok (map (fun ic => {| sp_grid := n_grid n;
                          sp_index := fst ic + 1;
                          sp_choice := snd ic |})
            (combine (seq 0 (length choices)) choices))
  else Raise AssertionError.

Definition gender_age_grid_image (batch_size n : nat) (shuffle : bool)
           (drawn : list nat) : result (list subplot) :=
  mask_grid_image batch_size n shuffle drawn.

(* ===================================================================== *)
(** * State and exceptions *)
(* ===================================================================== *)

(** A computation reads and writes a state and either returns or raises;
    what was written before an exception stays written. *)
Section Monad.
Context {S : Type}.

Definition M (A : Type) : Type := S -> result A * S.

Definition ret {A} (a : A) : M A := fun s => (Ok a, s).

Definition bind {A B} (m : M A) (k : A -> M B) : M B :=
  fun s => match m s with
           | (Ok a, s') => k a s'
           | (Raise e, s') => (Raise e, s')
           end.

Definition raise {A} (e : exn) : M A := fun s => (Raise e, s).

Definition lift {A} (r : result A) : M A := fun s => (r, s).

Definition get : M S := fun s => (Ok s, s).

End Monad.

Arguments M : clear implicits.

Declare Scope m_scope.
Delimit Scope m_scope with m.
Notation "x <- c1 ;; c2" := (bind c1 (fun x => c2))
  (at level 100, c1 at next level, right associativity) : m_scope.
Notation "c1 ;; c2" := (bind c1 (fun _ => c2))
  (at level 100, right associativity) : m_scope.

(* ===================================================================== *)
(** * The training machine *)
(* ===================================================================== *)

(** [args]: the fields of the parsed command line the loops read. *)
Record Args : Type := {
  seed : Z;
  epochs : nat;
  batch_size : Z;
  valid_batch_size : Z;
  lr : Q;
  lr_decay_step : Z;
  log_interval : Z;
  dataset_name : string;
  name : string
}.

Inductive loss_id : Type := MaskLoss | GenderLoss | AgeLoss.

(** The two tasks whose correct predictions are counted. *)
Inductive task : Type := MaskTask | GenderTask.

Inductive optimizer_id : Type := OptMask | OptGender | OptAge.

(** The parameter sets an optimizer's group can hold:
    [model.parameters()], [model.module.res], [fc_gender], [fc_age]. *)
Inductive pset : Type := AllParams | Backbone | FcGender | FcAge.

Record param_group : Type := { pg_params : pset; pg_lr : Q }.

(** [opt_module(groups, lr=.., weight_decay=..)]: a group without its own
    ['lr'] takes the default one. *)
Record optimizer : Type := {
  param_groups : list param_group;
  weight_decay : Q
}.

Definition make_optimizer (groups : list (pset * option Q)) (default_lr wd : Q)
  : optimizer :=
  {| param_groups :=
       map (fun g => {| pg_params := fst g;
                        pg_lr := match snd g with Some l => l | None => default_lr end |})
           groups;
     weight_decay := wd |}.

(** [get_lr]: the learning rate of the last parameter group ([a[-1]]). *)
Definition get_lr (o : optimizer) : option Q :=
  match rev (param_groups o) with
  | g :: _ => Some (pg_lr g)
  | [] => None
  end.

(** What the tensor framework, the model and the criteria compute.  A
    forward pass is determined by the parameters, the mode of the model
    and the batch. *)
Class Framework (Params Sample Grad : Type) : Type := {
  (** [criterion(outs, labels).item()] *)
  loss_of : loss_id -> Params -> bool -> list Sample -> fnum;
  (** [(preds == labels).sum().item()] *)
  matches_of : task -> Params -> bool -> list Sample -> Z;
  (** what [loss.backward()] adds to the [.grad] fields *)
  backward_of : loss_id -> Params -> list Sample -> Grad -> Grad;
  (** [optimizer.zero_grad()] on the sets the optimizer covers *)
  zero_of : list pset -> Grad -> Grad;
  (** [optimizer.step()] *)
  step_of : optimizer -> Grad -> Params -> Params;
  (** [scheduler.step()] of [StepLR(optimizer, step_size, gamma=0.5)] at
      its [last_epoch] *)
  sched_of : Z -> Z -> optimizer -> optimizer;
  (** the order in which a shuffling loader visits its data in an epoch *)
  shuffle_of : Z -> list Sample -> list Sample;
  (** whether [logger.add_figure] returns when it is handed [None] *)
  add_figure_none_ok : bool
}.

Inductive print_line : Type :=
| PrintTrain (epoch idx : Z) (train_loss train_acc : fnum) (current_lr : option Q)
| PrintTrainGA (epoch idx : Z) (train_gender_acc train_gender_loss train_age_loss : fnum)
               (gender_lr age_lr : option Q)
| PrintCalculating
| PrintNewBest (metric : fnum)
| PrintVal (val_acc val_loss best_val_acc best_val_loss : fnum)
| PrintValGA (val_gender_acc best_gender_acc val_gender_loss val_age_loss val_loss
              best_val_loss : fnum).

(** Everything the loops do that is visible from outside, in order. *)
Inductive event : Type :=
| EvModelTrain
| EvModelEval
| EvNoGrad (enter : bool)
| EvZeroGrad (o : optimizer_id)
| EvForward
| EvBackward (l : loss_id) (retain_graph : bool)
| EvOptStep (o : optimizer_id)
| EvSchedStep (o : optimizer_id)
| EvPrint (line : print_line)
| EvScalar (tag : string) (value : fnum) (step : Z)
| EvFigure (tag : string) (present : bool) (step : Z)
| EvSave (file : string).

Inductive blob (Params : Type) : Type :=
| Checkpoint (state_dict : Params)
| ConfigJson (a : Args).

Arguments Checkpoint {Params} state_dict.
Arguments ConfigJson {Params} a.

Section Machine.
Context {Params Sample Grad : Type} `{FW : Framework Params Sample Grad}.

(** The outputs of one forward pass, kept as what determines them. *)
Record outs : Type := {
  o_params : Params;
  o_training : bool;
  o_batch : list Sample
}.

Record machine : Type := {
  params : Params;                  (* the learnable parameters *)
  grads : Grad;                     (* their [.grad] fields *)
  graph : option outs;              (* the live autograd graph *)
  grad_enabled : bool;              (* [torch.is_grad_enabled()] *)
  training : bool;                  (* [model.training] *)
  opt : optimizer_id -> optimizer;  (* the optimizers *)
  last_epoch : optimizer_id -> Z;   (* of each scheduler *)
  files : gmap string (blob Params);(* the run directory [save_dir] *)
  trace : list event
}.

Local Open Scope m_scope.

Definition with_trace (s : machine) (t : list event) : machine :=
  {| params := params s; grads := grads s; graph := graph s;
     grad_enabled := grad_enabled s; training := training s;
     opt := opt s; last_epoch := last_epoch s; files := files s;
     trace := t |}.

Definition with_model (s : machine) (p : Params) (g : Grad) (gr : option outs)
  : machine :=
  {| params := p; grads := g; graph := gr;
     grad_enabled := grad_enabled s; training := training s;
     opt := opt s; last_epoch := last_epoch s; files := files s;
     trace := trace s |}.

Definition with_modes (s : machine) (ge tr : bool) : machine :=
  {| params := params s; grads := grads s; graph := graph s;
     grad_enabled := ge; training := tr;
     opt := opt s; last_epoch := last_epoch s; files := files s;
     trace := trace s |}.

Definition with_opt (s : machine) (o : optimizer_id -> optimizer)
           (le : optimizer_id -> Z) : machine :=
  {| params := params s; grads := grads s; graph := graph s;
     grad_enabled := grad_enabled s; training := training s;
     opt := o; last_epoch := le; files := files s;
     trace := trace s |}.

Definition with_files (s : machine) (f : gmap string (blob Params)) : machine :=
  {| params := params s; grads := grads s; graph := graph s;
     grad_enabled := grad_enabled s; training := training s;
     opt := opt s; last_epoch := last_epoch s; files := f;
     trace := trace s |}.

Definition optimizer_id_eqb (a b : optimizer_id) : bool :=
  match a, b with
  | OptMask, OptMask | OptGender, OptGender | OptAge, OptAge => true
  | _, _ => false
  end.

Definition emit (ev : event) : M machine unit :=
  fun s => (Ok tt, with_trace s (trace s ++ [ev])).

(** [model.train()] *)
Definition model_train : M machine unit :=
  fun s => (Ok tt, with_trace (with_modes s (grad_enabled s) true)
                              (trace s ++ [EvModelTrain])).

(** [model.eval()] *)
Definition model_eval : M machine unit :=
  fun s => (Ok tt, with_trace (with_modes s (grad_enabled s) false)
                              (trace s ++ [EvModelEval])).

(** Entering [with torch.no_grad():]; the value is the mode to restore. *)
Definition no_grad_enter : M machine bool :=
  fun s => (Ok (grad_enabled s),
            with_trace (with_modes s false (training s))
                       (trace s ++ [EvNoGrad true])).

(** Leaving the block. *)
Definition no_grad_exit (prev : bool) : M machine unit :=
  fun s => (Ok tt, with_trace (with_modes s prev (training s))
                              (trace s ++ [EvNoGrad false])).

(** [optimizer.zero_grad()] *)
Definition zero_grad (o : optimizer_id) : M machine unit :=
  fun s => (Ok tt,
            with_trace
              (with_model s (params s)
                 (zero_of (map pg_params (param_groups (opt s o))) (grads s))
                 (graph s))
              (trace s ++ [EvZeroGrad o])).

(** [model(inputs)]: with gradients enabled the pass records its graph. *)
Definition forward (batch : list Sample) : M machine outs :=
  fun s =>
    let o := {| o_params := params s; o_training := training s;
                o_batch := batch |} in
    (Ok o,
     with_trace
       (with_model s (params s) (grads s)
          (if grad_enabled s then Some o else graph s))
       (trace s ++ [EvForward])).

(** [loss.backward(retain_graph=..)]: needs the graph of the pass, adds
    to the gradients, and frees the graph unless it is retained. *)
Definition backward (l : loss_id) (o : outs) (retain_graph : bool) : M machine unit :=
  fun s =>
    match graph s with
    | None => (Raise RuntimeError, s)
    | Some _ =>
        (Ok tt,
         with_trace
           (with_model s (params s)
              (backward_of l (o_params o) (o_batch o) (grads s))
              (if retain_graph then graph s else None))
           (trace s ++ [EvBackward l retain_graph]))
    end.

(** [optimizer.step()] *)
Definition opt_step (o : optimizer_id) : M machine unit :=
  fun s => (Ok tt,
            with_trace
              (with_model s (step_of (opt s o) (grads s) (params s))
                 (grads s) (graph s))
              (trace s ++ [EvOptStep o])).

(** [scheduler.step()] *)
Definition sched_step (o : optimizer_id) (step_size : Z) : M machine unit :=
  fun s =>
    let e := last_epoch s o + 1 in
    (Ok tt,
     with_trace
       (with_opt s
          (fun o' => if optimizer_id_eqb o o'
                     then sched_of step_size e (opt s o) else opt s o')
          (fun o' => if optimizer_id_eqb o o' then e else last_epoch s o'))
       (trace s ++ [EvSchedStep o])).

(** [torch.save(model.module.state_dict(), f"{save_dir}/{file}")] *)
Definition save (file : string) : M machine unit :=
  fun s => (Ok tt,
            with_trace
              (with_files s (<[file := Checkpoint (params s)]> (files s)))
              (trace s ++ [EvSave file])).

(** [logger.add_figure("results", figure, epoch)]; the figure is kept
    as whether there is one. *)
Definition add_figure (figure : bool) (epoch : Z) : M machine unit :=
  fun s =>
    if figure || add_figure_none_ok
    then (Ok tt, with_trace s (trace s ++ [EvFigure "results" figure epoch]))
    else (Raise AttributeError, s).

(** [mask_grid_image] and [gender_age_grid_image] start with
    [assert n <= batch_size], called with [n=16]. *)
Definition grid_image (batch : list Sample) : M machine bool :=
  if 16 <=? Z.of_nat (length batch) then ret true else raise AssertionError.


(* ------------------------------------------------------------------- *)
(** ** Running metrics of the train loops *)
(* ------------------------------------------------------------------- *)

(** [loss_value] and [matches] of [mask_train]. *)
Record window : Type := { loss_value : fnum; matches : Z }.

(** Lines 189-190 and 218-219. *)
Definition window_reset : window := {| loss_value := fzero; matches := 0 |}.

(** Lines 205-206. *)
Definition window_add (w : window) (loss : fnum) (correct : Z) : window :=
  {| loss_value := fadd (loss_value w) loss; matches := matches w + correct |}.

(** Lines 208-209: [train_loss] and [train_acc]. *)
Definition window_report (args : Args) (w : window) : result (fnum * fnum) :=
  match py_truediv (loss_value w) (log_interval args) with
  | Raise e => Raise e
  | Ok train_loss =>
      match py_truediv (of_Z (matches w)) (batch_size args) with
      | Raise e => Raise e
      | Ok per_batch =>
          match py_truediv per_batch (log_interval args) with
          | Raise e => Raise e
          | Ok train_acc => Ok (train_loss, train_acc)
          end
      end
  end.

(** [(idx + 1) % args.log_interval == 0] *)
Definition window_full (args : Args) (idx : Z) : result bool :=
  if log_interval args =? 0 then Raise ZeroDivisionError
  else Ok ((idx + 1) mod log_interval args =? 0).

(** [gender_loss_value], [age_loss_value] and [gender_matches] of
    [gender_age_train]. *)
Record window_ga : Type := {
  gender_loss_value : fnum;
  age_loss_value : fnum;
  gender_matches : Z
}.

(** Lines 352-354 and 397-399. *)
Definition window_ga_reset : window_ga :=
  {| gender_loss_value := fzero; age_loss_value := fzero; gender_matches := 0 |}.

(** Lines 377-379. *)
Definition window_ga_add (w : window_ga) (gender_loss age_loss : fnum)
           (correct : Z) : window_ga :=
  {| gender_loss_value := fadd (gender_loss_value w) gender_loss;
     age_loss_value := fadd (age_loss_value w) age_loss;
     gender_matches := gender_matches w + correct |}.

(** Lines 382-385: [train_gender_loss], [train_age_loss] and
    [train_gender_acc]. *)
Definition window_ga_report (args : Args) (w : window_ga)
  : result (fnum * fnum * fnum) :=
  match py_truediv (gender_loss_value w) (log_interval args) with
  | Raise e => Raise e
  | Ok train_gender_loss =>
      match py_truediv (age_loss_value w) (log_interval args) with
      | Raise e => Raise e
      | Ok train_age_loss =>
          match py_truediv (of_Z (gender_matches w)) (batch_size args) with
          | Raise e => Raise e
          | Ok per_batch =>
              match py_truediv per_batch (log_interval args) with
              | Raise e => Raise e
              | Ok train_gender_acc =>
                  Ok (train_gender_loss, train_age_loss, train_gender_acc)
              end
          end
      end
  end.

(* ------------------------------------------------------------------- *)
(** ** mask_train (train.py, lines 118-265) *)
(* ------------------------------------------------------------------- *)

(** The optimisation of one batch: lines 196-203.  The value is the
    forward pass, from which the loss and the predictions are read. *)
Definition mask_train_step (train_batch : list Sample) : M machine outs :=
  zero_grad OptMask ;;
  o <- forward train_batch ;;
  backward MaskLoss o false ;;
  opt_step OptMask ;;
  ret o.

(** The body of the train loop: lines 192-219. *)
Definition mask_train_iter (args : Args) (epoch len_train_loader idx : Z)
           (w : window) (train_batch : list Sample) : M machine window :=
  o <- mask_train_step train_batch ;;
  let loss := loss_of MaskLoss (o_params o) (o_training o) (o_batch o) in
  let correct := matches_of MaskTask (o_params o) (o_training o) (o_batch o) in
  let w := window_add w loss correct in
  full <- lift (window_full args idx) ;;
  if (full : bool) then
    r <- lift (window_report args w) ;;
    s <- get ;;
    emit (EvPrint (PrintTrain epoch idx (fst r) (snd r) (get_lr (opt s OptMask)))) ;;
    emit (EvScalar "Train/loss" (fst r) (epoch * len_train_loader + idx)) ;;
    emit (EvScalar "Train/accuracy" (snd r) (epoch * len_train_loader + idx)) ;;
    ret window_reset
  else ret w.

(** [for idx, train_batch in enumerate(train_loader)] *)
Fixpoint mask_train_loop (args : Args) (epoch len_train_loader : Z)
         (train_loader : list (list Sample)) (idx : Z) (w : window) : M machine window :=
  match train_loader with
  | [] => ret w
  | train_batch :: rest =>
      w' <- mask_train_iter args epoch len_train_loader idx w train_batch ;;
      mask_train_loop args epoch len_train_loader rest (idx + 1) w'
  end.

(** The lists and the figure the validation loop builds. *)
Record val_items : Type := {
  val_loss_items : list fnum;
  val_acc_items : list Z;
  figure : bool                      (* [figure is not None] *)
}.

(** [for val_batch in val_loader]: lines 230-248. *)
Fixpoint mask_val_loop (val_loader : list (list Sample)) (v : val_items)
  : M machine val_items :=
  match val_loader with
  | [] => ret v
  | val_batch :: rest =>
      o <- forward val_batch ;;
      let loss_item := loss_of MaskLoss (o_params o) (o_training o) (o_batch o) in
      let acc_item := matches_of MaskTask (o_params o) (o_training o) (o_batch o) in
      fig <- (if figure v then ret true else grid_image val_batch) ;;
      mask_val_loop rest
        {| val_loss_items := val_loss_items v ++ [loss_item];
           val_acc_items := val_acc_items v ++ [acc_item];
           figure := fig |}
  end.

(** [best_val_acc] and [best_val_loss]. *)
Record best : Type := { best_val_acc : fnum; best_val_loss : fnum }.

(** Lines 184-185. *)
Definition mask_best_init : best :=
  {| best_val_acc := fzero; best_val_loss := np_inf |}.

(** The validation block: lines 224-265. *)
Definition mask_validate (args : Args) (val_set : list Sample) (epoch : Z)
           (b : best) : M machine best :=
  prev <- no_grad_enter ;;
  emit (EvPrint PrintCalculating) ;;
  model_eval ;;
  let bsz := Z.to_nat (valid_batch_size args) in
  v <- mask_val_loop (batches bsz true val_set)
         {| val_loss_items := []; val_acc_items := []; figure := false |} ;;
  let val_loss := np_div (np_sum (val_loss_items v))
                         (of_Z (Z.of_nat (loader_len bsz true val_set))) in
  let val_acc := np_div (np_sum_int (val_acc_items v))
                        (of_Z (Z.of_nat (length val_set))) in
  let best_val_loss' := py_min (best_val_loss b) val_loss in
  best_val_acc' <-
    (if fgt val_acc (best_val_acc b) then
       emit (EvPrint (PrintNewBest val_acc)) ;;
       save "best.pth" ;;
       ret val_acc
     else ret (best_val_acc b)) ;;
  save "last.pth" ;;
  emit (EvPrint (PrintVal val_acc val_loss best_val_acc' best_val_loss')) ;;
  emit (EvScalar "Val/loss" val_loss epoch) ;;
  emit (EvScalar "Val/accuracy" val_acc epoch) ;;
  add_figure (figure v) epoch ;;
  no_grad_exit prev ;;
  ret {| best_val_acc := best_val_acc'; best_val_loss := best_val_loss' |}.

(** The train half of an epoch: lines 188-221. *)
Definition mask_train_phase (args : Args) (train_set : list Sample) (epoch : Z)
  : M machine unit :=
  model_train ;;
  let bsz := Z.to_nat (batch_size args) in
  let train_loader := batches bsz true (shuffle_of epoch train_set) in
  mask_train_loop args epoch (Z.of_nat (loader_len bsz true train_set))
                  train_loader 0 window_reset ;;
  sched_step OptMask (lr_decay_step args).

Definition mask_epoch (args : Args) (train_set val_set : list Sample)
           (epoch : Z) (b : best) : M machine best :=
  mask_train_phase args train_set epoch ;;
  mask_validate args val_set epoch b.

(** [for epoch in range(args.epochs)], from [epoch] on. *)
Fixpoint mask_epochs (n : nat) (args : Args) (train_set val_set : list Sample)
         (epoch : Z) (b : best) : M machine best :=
  match n with
  | O => ret b
  | S n' =>
      b' <- mask_epoch args train_set val_set epoch b ;;
      mask_epochs n' args train_set val_set (epoch + 1) b'
  end.

(** [DataLoader(.., batch_size=b, ..)] refuses a batch size that is not
    positive. *)
Definition check_loader (b : Z) : M machine unit :=
  if b <=? 0 then raise ValueError else ret tt.

(** Installing an optimizer and its [StepLR] scheduler. *)
Definition set_optimizer (o : optimizer_id) (x : optimizer) : M machine unit :=
  fun s => (Ok tt,
            with_opt s
              (fun o' => if optimizer_id_eqb o o' then x else opt s o')
              (fun o' => if optimizer_id_eqb o o' then 0 else last_epoch s o')).

(** Line 181-182: [config.json]. *)
Definition write_config (args : Args) : M machine unit :=
  fun s => (Ok tt, with_files s (<["config.json" := ConfigJson args]> (files s))).

(** [mask_train], started in the run directory [increment_path] chose,
    on the two halves [dataset.split_dataset()] returned. *)
Definition mask_train (args : Args) (train_set val_set : list Sample) : M machine best :=
  check_loader (batch_size args) ;;
  check_loader (valid_batch_size args) ;;
  set_optimizer OptMask
    (make_optimizer [(AllParams, None)] (lr args) (5 # 10000)) ;;
  write_config args ;;
  mask_epochs (epochs args) args train_set val_set 0 mask_best_init.

(* ------------------------------------------------------------------- *)
(** ** gender_age_train (train.py, lines 268-457) *)
(* ------------------------------------------------------------------- *)

(** Lines 324-327. *)
Definition gender_optimizer (args : Args) : optimizer :=
  make_optimizer [(Backbone, Some (1 # 10000)); (FcGender, None)]
                 (lr args) (5 # 10000).

(** Lines 329-332. *)
Definition age_optimizer (args : Args) : optimizer :=
  make_optimizer [(Backbone, Some (1 # 10000)); (FcAge, None)]
                 (lr args) (5 # 10000).

(** The optimisation of one batch: lines 361-375. *)
Definition gender_age_train_step (train_batch : list Sample) : M machine outs :=
  zero_grad OptGender ;;
  zero_grad OptAge ;;
  o <- forward train_batch ;;
  backward GenderLoss o true ;;
  backward AgeLoss o false ;;
  opt_step OptGender ;;
  opt_step OptAge ;;
  ret o.

(** The body of the train loop: lines 356-399. *)
Definition gender_age_train_iter (args : Args) (epoch len_train_loader idx : Z)
           (w : window_ga) (train_batch : list Sample) : M machine window_ga :=
  o <- gender_age_train_step train_batch ;;
  let gender_loss := loss_of GenderLoss (o_params o) (o_training o) (o_batch o) in
  let age_loss := loss_of AgeLoss (o_params o) (o_training o) (o_batch o) in
  let correct := matches_of GenderTask (o_params o) (o_training o) (o_batch o) in
  let w := window_ga_add w gender_loss age_loss correct in
  full <- lift (window_full args idx) ;;
  if (full : bool) then
    r <- lift (window_ga_report args w) ;;
    s <- get ;;
    emit (EvPrint (PrintTrainGA epoch idx (snd r) (fst (fst r)) (snd (fst r))
                     (get_lr (opt s OptGender)) (get_lr (opt s OptAge)))) ;;
    emit (EvScalar "Train/gender accuracy" (snd r) (epoch * len_train_loader + idx)) ;;
    emit (EvScalar "Train/gender loss" (fst (fst r)) (epoch * len_train_loader + idx)) ;;
    emit (EvScalar "Train/age loss" (snd (fst r)) (epoch * len_train_loader + idx)) ;;
    ret window_ga_reset
  else ret w.

Fixpoint gender_age_train_loop (args : Args) (epoch len_train_loader : Z)
         (train_loader : list (list Sample)) (idx : Z) (w : window_ga)
  : M machine window_ga :=
  match train_loader with
  | [] => ret w
  | train_batch :: rest =>
      w' <- gender_age_train_iter args epoch len_train_loader idx w train_batch ;;
      gender_age_train_loop args epoch len_train_loader rest (idx + 1) w'
  end.

Record val_items_ga : Type := {
  val_gender_acc_items : list Z;
  val_gender_loss_items : list fnum;
  val_age_loss_items : list fnum;
  figure_ga : bool
}.

(** [for val_batch in val_loader]: lines 412-436. *)
Fixpoint gender_age_val_loop (val_loader : list (list Sample)) (v : val_items_ga)
  : M machine val_items_ga :=
  match val_loader with
  | [] => ret v
  | val_batch :: rest =>
      o <- forward val_batch ;;
      let gender_loss_item :=
        loss_of GenderLoss (o_params o) (o_training o) (o_batch o) in
      let age_loss_item :=
        loss_of AgeLoss (o_params o) (o_training o) (o_batch o) in
      let gender_acc_item :=
        matches_of GenderTask (o_params o) (o_training o) (o_batch o) in
      fig <- (if figure_ga v then ret true else grid_image val_batch) ;;
      gender_age_val_loop rest
        {| val_gender_acc_items := val_gender_acc_items v ++ [gender_acc_item];
           val_gender_loss_items := val_gender_loss_items v ++ [gender_loss_item];
           val_age_loss_items := val_age_loss_items v ++ [age_loss_item];
           figure_ga := fig |}
  end.

(** [best_val_gender_acc] and [best_val_loss]. *)
Record best_ga : Type := { best_val_gender_acc : fnum; best_val_loss_ga : fnum }.

(** Lines 347-348. *)
Definition gender_age_best_init : best_ga :=
  {| best_val_gender_acc := fzero; best_val_loss_ga := np_inf |}.

(** The validation block: lines 405-457. *)
Definition gender_age_validate (args : Args) (val_set : list Sample) (epoch : Z)
           (b : best_ga) : M machine best_ga :=
  prev <- no_grad_enter ;;
  emit (EvPrint PrintCalculating) ;;
  model_eval ;;
  let bsz := Z.to_nat (valid_batch_size args) in
  v <- gender_age_val_loop (batches bsz true val_set)
         {| val_gender_acc_items := []; val_gender_loss_items := [];
            val_age_loss_items := []; figure_ga := false |} ;;
  let len_val_loader := of_Z (Z.of_nat (loader_len bsz true val_set)) in
  let val_gender_acc := np_div (np_sum_int (val_gender_acc_items v))
                               (of_Z (Z.of_nat (length val_set))) in
  let val_gender_loss := np_div (np_sum (val_gender_loss_items v)) len_val_loader in
  let val_age_loss := np_div (np_sum (val_age_loss_items v)) len_val_loader in
  let best_val_gender_acc' := py_max (best_val_gender_acc b) val_gender_acc in
  let val_loss := fadd val_gender_loss val_age_loss in
  best_val_loss' <-
    (if flt val_loss (best_val_loss_ga b) then
       emit (EvPrint (PrintNewBest val_loss)) ;;
       save "best.pth" ;;
       ret val_loss
     else ret (best_val_loss_ga b)) ;;
  save "last.pth" ;;
  emit (EvPrint (PrintValGA val_gender_acc best_val_gender_acc' val_gender_loss
                   val_age_loss val_loss best_val_loss')) ;;
  emit (EvScalar "Val/gender accuracy" val_gender_acc epoch) ;;
  emit (EvScalar "Val/gender loss" val_gender_loss epoch) ;;
  emit (EvScalar "Val/age loss" val_age_loss epoch) ;;
  add_figure (figure_ga v) epoch ;;
  no_grad_exit prev ;;
  ret {| best_val_gender_acc := best_val_gender_acc';
         best_val_loss_ga := best_val_loss' |}.

(** The train half of an epoch: lines 351-402. *)
Definition gender_age_train_phase (args : Args) (train_set : list Sample)
           (epoch : Z) : M machine unit :=
  model_train ;;
  let bsz := Z.to_nat (batch_size args) in
  let train_loader := batches bsz true (shuffle_of epoch train_set) in
  gender_age_train_loop args epoch (Z.of_nat (loader_len bsz true train_set))
                        train_loader 0 window_ga_reset ;;
  sched_step OptGender (lr_decay_step args) ;;
  sched_step OptAge (lr_decay_step args).

Definition gender_age_epoch (args : Args) (train_set val_set : list Sample)
           (epoch : Z) (b : best_ga) : M machine best_ga :=
  gender_age_train_phase args train_set epoch ;;
  gender_age_validate args val_set epoch b.

Fixpoint gender_age_epochs (n : nat) (args : Args)
         (train_set val_set : list Sample) (epoch : Z) (b : best_ga) : M machine best_ga :=
  match n with
  | O => ret b
  | S n' =>
      b' <- gender_age_epoch args train_set val_set epoch b ;;
      gender_age_epochs n' args train_set val_set (epoch + 1) b'
  end.

Definition gender_age_train (args : Args) (train_set val_set : list Sample)
  : M machine best_ga :=
  check_loader (batch_size args) ;;
  check_loader (valid_batch_size args) ;;
  set_optimizer OptGender (gender_optimizer args) ;;
  set_optimizer OptAge (age_optimizer args) ;;
  write_config args ;;
  gender_age_epochs (epochs args) args train_set val_set 0 gender_age_best_init.

End Machine.

(* ===================================================================== *)
(** * load_model (inference.py, lines 17-30) *)
(* ===================================================================== *)

(** The parameters [torch.load] reads from [best.pth] of the directory
    [saved_model]; [None] when the file is missing, where [torch.load]
    raises. *)
Definition load_model {Params : Type} (saved_model : gmap string (blob Params))
  : option Params :=
  match saved_model !! "best.pth" with
  | Some (Checkpoint p) => Some p
  | _ => None
  end.

(* ===================================================================== *)
(** * inference (inference.py, lines 33-88) *)
(* ===================================================================== *)

(** A value in a table. *)
Inductive cell : Type :=
| CStr (s : string)
| CInt (z : Z)
| CNum (q : Q).

(** A pandas [DataFrame], column by column, every column as long as the
    index. *)
Definition dataframe := list (string * list cell).

(** [info.ImageID] *)
Fixpoint get_column (c : string) (df : dataframe) : option (list cell) :=
  match df with
  | [] => None
  | (c', v) :: rest => if String.eqb c c' then Some v else get_column c rest
  end.

Definition has_column (c : string) (df : dataframe) : bool :=
  match get_column c df with Some _ => true | None => false end.

(** [len(df)] *)
Definition nrows (df : dataframe) : nat :=
  match df with
  | [] => O
  | (_, v) :: _ => length v
  end.

Fixpoint replace_column (c : string) (v : list cell) (df : dataframe) : dataframe :=
  match df with
  | [] => []
  | (c', v') :: rest =>
      if String.eqb c c' then (c', v) :: rest
      else (c', v') :: replace_column c v rest
  end.

(** [df[c] = v]: an existing column keeps its place, a new one goes last;
    the values must be as many as the rows. *)
Definition set_column (c : string) (v : list cell) (df : dataframe)
  : result dataframe :=
  if negb (length v =? nrows df)%nat then Raise ValueError
  else if has_column c df then Ok (replace_column c v df)
  else Ok (df ++ [(c, v)])%list.

(** [df.drop(columns=[c])]: a missing label raises. *)
Definition drop_column (c : string) (df : dataframe) : result dataframe :=
  if has_column c df
  then Ok (List.filter (fun cv => negb (String.eqb c (fst cv))) df)
  else Raise (KeyError c).

(** [np.array(preds)] read by columns, for [preds] a list of rows of one
    width; the empty list is a one-dimensional array, which
    [column_stack] takes as a single column. *)
Definition columns_of_rows (preds : list (list cell)) : list (list cell) :=
  match preds with
  | [] => [[]]
  | r :: _ => map (fun j => map (fun row => nth j row (CInt 0)) preds)
                  (seq 0 (length r))
  end.

(** [pd.DataFrame(pd.np.column_stack([info, preds]))] followed by
    [info.columns = columns_name]: the new names must be as many as the
    columns. *)
Definition column_stack_named (info : dataframe) (preds : list (list cell))
           (columns_name : list string) : result dataframe :=
  let cols := (map snd info ++ columns_of_rows preds)%list in
  if (length columns_name =? length cols)%nat
  then Ok (combine columns_name cols)
  else Raise ValueError.

(** [torch.argmax]: the position of the first largest entry. *)
Fixpoint argmax_from (best : Q) (best_i i : nat) (l : list Q) : nat :=
  match l with
  | [] => best_i
  | x :: rest =>
      if Qle_bool x best then argmax_from best best_i (S i) rest
      else argmax_from x i (S i) rest
  end.

Definition argmax (l : list Q) : nat :=
  match l with
  | [] => O
  | x :: rest => argmax_from x O 1 rest
  end.

(** [MaskBaseDataset.num_classes] *)
Definition num_classes : nat := 18.

Inductive voting : Type := Hard | Soft | OtherVoting (s : string).

(** [args.voting_type], compared with ['hard'] and ['soft']. *)
Definition voting_of (s : string) : voting :=
  if String.eqb s "hard" then Hard
  else if String.eqb s "soft" then Soft
  else OtherVoting s.

Record InfArgs : Type := {
  inf_batch_size : Z;
  voting_type : string
}.

Section Inference.
(** The logits the loaded model gives, in evaluation mode, for the image
    of an identifier, and [nn.Softmax(dim=1)] on one row. *)
Variable model : cell -> list Q.
Variable softmax : list Q -> list Q.

(** Lines 66-73: the predictions, batch after batch, in one list. *)
Definition predict (v : voting) (loader : list (list cell)) : list (list cell) :=
  flat_map
    (fun images =>
       map (fun image =>
              let pred := model image in
              match v with
              | Hard => [CInt (Z.of_nat (argmax pred))]
              | Soft => map CNum (softmax pred)
              | OtherVoting _ => map CNum pred
              end) images)
    loader.

(** [columns_name]: ["ImageID"], then [str(i)] for [i] in
    [range(num_classes)]. *)
Definition columns_name : list string :=
  "ImageID" :: map (fun i => NilEmpty.string_of_uint (Nat.to_uint i))
                   (seq 0 num_classes).

(** Lines 75-84: the table that is written. *)
Definition assemble (v : voting) (info : dataframe) (preds : list (list cell))
  : result dataframe :=
  match v with
  | Hard => set_column "ans" (map (fun p => hd (CInt 0) p) preds) info
  | Soft =>
      match drop_column "ans" info with
      | Raise e => Raise e
      | Ok info' => column_stack_named info' preds columns_name
      end
  | OtherVoting _ => Ok info
  end.

(** The output directory maps a file name to the table saved in it. *)
Definition inference (args : InfArgs) (info : dataframe)
  : M (gmap string dataframe) unit :=
  (match get_column "ImageID" info with
   | None => raise AttributeError
   | Some ids =>
       if inf_batch_size args <=? 0 then raise ValueError
       else
         let loader := batches (Z.to_nat (inf_batch_size args)) false ids in
         let preds := predict (voting_of (voting_type args)) loader in
         out <- lift (assemble (voting_of (voting_type args)) info preds) ;;
         fun dir => (Ok tt, <["output.csv" := out]> dir)
   end)%m.

End Inference.


(* ===================================================================== *)
(** * Facts: increment_path *)
(* ===================================================================== *)

Module IncrementPathFacts.
Import IncrementPath.

(** A path that does not exist is returned as it is. *)
Lemma increment_path_absent fs path exist_ok :
  exists_ fs path = false -> increment_path fs path exist_ok = path.
Proof.
  intros H. unfold increment_path. rewrite H. now rewrite orb_true_r.
Qed.

(** With [exist_ok] every path is returned as it is. *)
Lemma increment_path_exist_ok fs path : increment_path fs path true = path.
Proof.
  unfold increment_path. destruct (exists_ fs path); reflexivity.
Qed.


(** The two examples of the specification. *)
Lemma increment_path_siblings_0_1_3 :
  increment_path ["runs/exp"; "runs/exp0"; "runs/exp1"; "runs/exp3"] "runs/exp" false
  = "runs/exp4".
Proof. vm_compute. reflexivity. Qed.

Lemma increment_path_no_numeric_sibling :
  increment_path ["runs/exp"; "runs/exp_old"; "runs/other7"] "runs/exp" false
  = "runs/exp2".
Proof. vm_compute. reflexivity. Qed.

(** *** When the allocator is right

    The number search is sound for a path that ends with its own stem
    and in which the stem is followed by a digit nowhere before: a name
    without a dot, under directories that do not look like numbered
    runs of the same name. *)


(** [anchored st p]: the text [p] ends with [st], and [st(\d+)] matches
    at no earlier position of it. *)
Fixpoint anchored (st p : string) : bool :=
  if String.eqb p st then true
  else match p with
       | EmptyString => false
       | String _ p' =>
           match match_here st p with
           | Some _ => false
           | None => (String.length st <? String.length p)%nat && anchored st p'
           end
       end.





















(** The two failing paths are not anchored. *)
Lemma failing_paths_not_anchored :
  anchored (stem "model/resnet_lr0.01") "model/resnet_lr0.01" = false
  /\ anchored (stem "exp1/exp") "exp1/exp" = false.
Proof. split; reflexivity. Qed.





(** C2, at a failing input.  The run name [resnet_lr0.01] has the stem
    [resnet_lr0]: the pattern [resnet_lr0(\d+)] matches neither the
    run directory nor its sibling [resnet_lr0.012], no number is found,
    and the third run is given [model/resnet_lr0.012], which exists.  A
    parent directory that carries the stem and a number misleads the
    search the same way. *)
Lemma increment_path_collides :
  stem "model/resnet_lr0.01" = "resnet_lr0"
  /\ suffixes (stem "model/resnet_lr0.01")
       (glob_star ["model/resnet_lr0.01"; "model/resnet_lr0.012"] "model/resnet_lr0.01")
     = []
  /\ increment_path ["model/resnet_lr0.01"; "model/resnet_lr0.012"]
       "model/resnet_lr0.01" false
     = "model/resnet_lr0.012"
  /\ exists_ ["model/resnet_lr0.01"; "model/resnet_lr0.012"]
       (increment_path ["model/resnet_lr0.01"; "model/resnet_lr0.012"]
          "model/resnet_lr0.01" false)
     = true
  /\ increment_path ["exp1/exp"; "exp1/exp2"] "exp1/exp" false = "exp1/exp2".
Proof. vm_compute. repeat split; reflexivity. Qed.

End IncrementPathFacts.


(* ===================================================================== *)
(** * Facts: DataLoader *)
(* ===================================================================== *)

Section DataLoaderFacts.
Context {A : Type}.
Implicit Types (l : list A) (B fuel : nat).

Lemma firstn_plus B k l :
  firstn (B + k) l = (firstn B l ++ firstn k (skipn B l))%list.
Proof.
  revert l. induction B as [| B IH]; intros l; [reflexivity |].
  destruct l as [| x l]; simpl.
  - now rewrite firstn_nil.
  - now rewrite IH.
Qed.


(** With [drop_last=True] the batches are the first [B * (n / B)]
    samples, cut in pieces of [B]. *)
Lemma batches_fuel_drop_last fuel : forall B l,
  (0 < B)%nat -> (length l <= fuel)%nat ->
  concat (batches_fuel fuel B true l) = firstn (B * (length l / B)) l
  /\ length (batches_fuel fuel B true l) = (length l / B)%nat
  /\ Forall (fun b => length b = B) (batches_fuel fuel B true l).
Proof.
  assert (Hnil : forall B fuel', (0 < B)%nat ->
             concat (batches_fuel fuel' B true (@nil A)) = firstn (B * (0 / B)) []
             /\ length (batches_fuel fuel' B true (@nil A)) = (0 / B)%nat
             /\ Forall (fun b : list A => length b = B) (batches_fuel fuel' B true [])).
  { intros B fuel' HB. rewrite Nat.Div0.div_0_l, firstn_nil.
    destruct fuel'; repeat split; constructor. }
  induction fuel as [| fuel IH]; intros B l HB Hlen.
  - destruct l; [| simpl in Hlen; lia]. now apply Hnil.
  - destruct l as [| x l']; [now apply Hnil |].
    set (l := x :: l') in *.
    change (batches_fuel (S fuel) B true l)
      with (if (length l <? B)%nat then []
            else firstn B l :: batches_fuel fuel B true (skipn B l)).
    destruct (Nat.ltb_spec (length l) B) as [Hlt | Hge].
    + rewrite Nat.div_small by lia. rewrite Nat.mul_0_r. simpl.
      repeat split; constructor.
    + assert (Hsk : length (skipn B l) = (length l - B)%nat) by apply length_skipn.
      assert (Hl : (0 < length l)%nat) by (subst l; simpl; lia).
      destruct (IH B (skipn B l) HB ltac:(lia)) as (Hc & Hn & Hf).
      assert (Hdiv : (length l / B = 1 + (length l - B) / B)%nat).
      { replace (length l) with (1 * B + (length l - B))%nat at 1 by lia.
        rewrite Nat.div_add_l by lia. reflexivity. }
      cbn [concat length]. rewrite Hc, Hn, Hsk, Hdiv.
      split; [| split; [reflexivity |]].
      * rewrite Nat.mul_add_distr_l, Nat.mul_1_r. now rewrite firstn_plus.
      * constructor; [| exact Hf]. rewrite length_firstn. lia.
Qed.

Lemma batches_drop_last B l :
  (0 < B)%nat ->
  concat (batches B true l) = firstn (B * (length l / B)) l
  /\ length (batches B true l) = loader_len B true l
  /\ Forall (fun b => length b = B) (batches B true l).
Proof. intros HB. apply batches_fuel_drop_last; [exact HB | reflexivity]. Qed.


(** With [drop_last=False] every sample is in a batch, in order. *)
Lemma batches_fuel_keep_last fuel : forall B l,
  (0 < B)%nat -> (length l <= fuel)%nat ->
  concat (batches_fuel fuel B false l) = l.
Proof.
  induction fuel as [| fuel IH]; intros B l HB Hlen.
  - destruct l; [reflexivity | simpl in Hlen; lia].
  - destruct l as [| x l']; [reflexivity |].
    set (l := x :: l') in *.
    change (batches_fuel (S fuel) B false l)
      with (if (length l <? B)%nat then [l]
            else firstn B l :: batches_fuel fuel B false (skipn B l)).
    assert (Hl : (0 < length l)%nat) by (subst l; simpl; lia).
    destruct (Nat.ltb_spec (length l) B) as [Hlt | Hge].
    + cbn [concat]. apply app_nil_r.
    + cbn [concat]. rewrite IH; [apply firstn_skipn | exact HB |].
      rewrite length_skipn. lia.
Qed.

Lemma batches_keep_last B l : (0 < B)%nat -> concat (batches B false l) = l.
Proof. intros HB. apply batches_fuel_keep_last; [exact HB | reflexivity]. Qed.

End DataLoaderFacts.


(* ===================================================================== *)
(** * Facts: state and exceptions *)
(* ===================================================================== *)

Section MonadFacts.
Context {S : Type}.

(** [steps R m]: whatever [m] returns or raises, the state it leaves is
    [R]-related to the state it started in. *)
Definition steps (R : S -> S -> Prop) {A} (m : M S A) : Prop :=
  forall s, R s (snd (m s)).

Lemma steps_ret (R : S -> S -> Prop) {A} (a : A) :
  (forall s, R s s) -> steps R (ret a).
Proof. intros Hrefl s. apply Hrefl. Qed.

Lemma steps_raise (R : S -> S -> Prop) {A} (e : exn) :
  (forall s, R s s) -> steps R (@raise S A e).
Proof. intros Hrefl s. apply Hrefl. Qed.

Lemma steps_lift (R : S -> S -> Prop) {A} (r : result A) :
  (forall s, R s s) -> steps R (@lift S A r).
Proof. intros Hrefl s. apply Hrefl. Qed.

(** Sequencing: [m] moves by [R1], what follows by [R2]; an exception
    in [m] stops there, so [R1] alone must be enough for [R3]. *)
Lemma steps_bind (R1 R2 R3 : S -> S -> Prop) {A B} (m : M S A) (k : A -> M S B) :
  (forall s1 s2 s3, R1 s1 s2 -> R2 s2 s3 -> R3 s1 s3) ->
  (forall s1 s2, R1 s1 s2 -> R3 s1 s2) ->
  steps R1 m -> (forall a, steps R2 (k a)) -> steps R3 (bind m k).
Proof.
  intros Htrans Hstop Hm Hk s. unfold bind.
  specialize (Hm s). destruct (m s) as [[a | e] s']; simpl in *.
  - eapply Htrans; [exact Hm | apply Hk].
  - apply Hstop, Hm.
Qed.

End MonadFacts.

(* ===================================================================== *)
(** * Facts: validation leaves the model alone *)
(* ===================================================================== *)

Section ValidationFrame.
Context {Params Sample Grad : Type} `{FW : Framework Params Sample Grad}.
Local Notation "'mach'" := (@machine Params Sample Grad).
Local Open Scope m_scope.

(** The events of a gradient step. *)
Definition is_update (ev : event) : bool :=
  match ev with
  | EvZeroGrad _ | EvBackward _ _ | EvOptStep _ => true
  | _ => false
  end.

Definition no_update (evs : list event) : bool :=
  forallb (fun ev => negb (is_update ev)) evs.

(** [s'] is [s] after events that are no gradient step, with the same
    parameters, gradients and autograd graph. *)
Definition quiet_ext (s s' : mach) : Prop :=
  params s' = params s /\ grads s' = grads s /\ graph s' = graph s /\
  exists evs, trace s' = (trace s ++ evs)%list /\ no_update evs = true.

(** Inside the no-gradient block. *)
Definition quiet_in (s s' : mach) : Prop :=
  grad_enabled s = false -> grad_enabled s' = false /\ quiet_ext s s'.

(** From inside the block to after it. *)
Definition quiet_out (s s' : mach) : Prop :=
  grad_enabled s = false -> quiet_ext s s'.

Lemma quiet_ext_refl s : quiet_ext s s.
Proof.
  repeat split; auto. exists []. split; [now rewrite app_nil_r | reflexivity].
Qed.

Lemma quiet_ext_trans s1 s2 s3 :
  quiet_ext s1 s2 -> quiet_ext s2 s3 -> quiet_ext s1 s3.
Proof.
  intros (Hp & Hg & Hgr & evs & Ht & Hq) (Hp' & Hg' & Hgr' & evs' & Ht' & Hq').
  repeat split; try congruence.
  exists (evs ++ evs')%list. split.
  - rewrite Ht', Ht. now rewrite app_assoc.
  - unfold no_update in *. rewrite forallb_app, Hq, Hq'. reflexivity.
Qed.

Lemma quiet_in_refl s : quiet_in s s.
Proof. intros H. split; [exact H | apply quiet_ext_refl]. Qed.

Lemma quiet_in_trans s1 s2 s3 : quiet_in s1 s2 -> quiet_in s2 s3 -> quiet_in s1 s3.
Proof.
  intros H12 H23 H. destruct (H12 H) as [H2 E12].
  destruct (H23 H2) as [H3 E23]. split; [exact H3 |].
  eapply quiet_ext_trans; eassumption.
Qed.

Lemma quiet_in_out s1 s2 : quiet_in s1 s2 -> quiet_out s1 s2.
Proof. intros H Hs. apply H, Hs. Qed.

Lemma quiet_in_out_trans s1 s2 s3 :
  quiet_in s1 s2 -> quiet_out s2 s3 -> quiet_out s1 s3.
Proof.
  intros H12 H23 H. destruct (H12 H) as [H2 E12].
  eapply quiet_ext_trans; [exact E12 | apply H23, H2].
Qed.

Lemma steps_in_bind {A B} (m : M mach A) (k : A -> M mach B) :
  steps quiet_in m -> (forall a, steps quiet_in (k a)) -> steps quiet_in (bind m k).
Proof.
  intros Hm Hk.
  apply (steps_bind quiet_in quiet_in quiet_in);
    [exact quiet_in_trans | trivial | exact Hm | exact Hk].
Qed.

Lemma steps_out_bind {A B} (m : M mach A) (k : A -> M mach B) :
  steps quiet_in m -> (forall a, steps quiet_out (k a)) -> steps quiet_out (bind m k).
Proof.
  intros Hm Hk.
  apply (steps_bind quiet_in quiet_out quiet_out);
    [exact quiet_in_out_trans | exact quiet_in_out | exact Hm | exact Hk].
Qed.

Lemma steps_in_emit ev : is_update ev = false -> steps quiet_in (emit ev).
Proof.
  intros Hev s Hs. split; [exact Hs |].
  repeat split; auto. exists [ev]. split; [reflexivity |].
  unfold no_update. simpl. now rewrite Hev.
Qed.

Lemma steps_in_model_eval : steps quiet_in model_eval.
Proof.
  intros s Hs. split; [exact Hs |].
  repeat split; auto. exists [EvModelEval]. split; reflexivity.
Qed.

Lemma steps_in_forward batch : steps quiet_in (forward batch).
Proof.
  intros s Hs. simpl. split; [exact Hs |].
  repeat split; auto.
  - simpl. now rewrite Hs.
  - exists [EvForward]. split; reflexivity.
Qed.

Lemma steps_in_save file : steps quiet_in (save file).
Proof.
  intros s Hs. split; [exact Hs |].
  repeat split; auto. exists [EvSave file]. split; reflexivity.
Qed.

Lemma steps_in_grid_image batch : steps quiet_in (grid_image batch).
Proof.
  unfold grid_image. destruct (16 <=? _).
  - apply steps_ret, quiet_in_refl.
  - apply steps_raise, quiet_in_refl.
Qed.

Lemma steps_in_add_figure fig epoch : steps quiet_in (add_figure fig epoch).
Proof.
  intros s Hs. unfold add_figure. destruct (fig || add_figure_none_ok); simpl.
  - split; [exact Hs |]. repeat split; auto.
    exists [EvFigure "results" fig epoch]. split; reflexivity.
  - split; [exact Hs | apply quiet_ext_refl].
Qed.

Lemma steps_out_no_grad_exit prev : steps quiet_out (no_grad_exit prev).
Proof.
  intros s Hs. repeat split; auto. exists [EvNoGrad false]. split; reflexivity.
Qed.

Lemma steps_in_mask_val_loop val_loader :
  forall v, steps quiet_in (mask_val_loop val_loader v).
Proof.
  induction val_loader as [| val_batch rest IH]; intros v; simpl.
  - apply steps_ret, quiet_in_refl.
  - apply steps_in_bind; [apply steps_in_forward | intros o].
    apply steps_in_bind; [| intros fig; apply IH].
    destruct (figure v); [apply steps_ret, quiet_in_refl | apply steps_in_grid_image].
Qed.

Lemma steps_in_gender_age_val_loop val_loader :
  forall v, steps quiet_in (gender_age_val_loop val_loader v).
Proof.
  induction val_loader as [| val_batch rest IH]; intros v; simpl.
  - apply steps_ret, quiet_in_refl.
  - apply steps_in_bind; [apply steps_in_forward | intros o].
    apply steps_in_bind; [| intros fig; apply IH].
    destruct (figure_ga v); [apply steps_ret, quiet_in_refl | apply steps_in_grid_image].
Qed.

(** Repeated steps through a block of the validation code. *)
Ltac quiet_block :=
  repeat first
    [ apply steps_out_no_grad_exit
    | apply steps_in_emit; reflexivity
    | apply steps_in_model_eval
    | apply steps_in_save
    | apply steps_in_add_figure
    | apply steps_in_mask_val_loop
    | apply steps_in_gender_age_val_loop
    | apply steps_ret, quiet_in_refl
    | apply steps_out_bind; [| intros ?]
    | apply steps_in_bind; [| intros ?] ].

(** What a validation block leaves behind: the parameters, the
    gradients and the autograd graph it found, and a trace that goes on
    with the entry into the no-gradient block and then with events none
    of which is a gradient step. *)
Definition validated (s s' : mach) : Prop :=
  params s' = params s /\ grads s' = grads s /\ graph s' = graph s /\
  exists evs, trace s' = (trace s ++ EvNoGrad true :: evs)%list
              /\ no_update evs = true.

Lemma quiet_out_after_enter (s : mach) {A} (k : bool -> M mach A) :
  (forall prev, steps quiet_out (k prev)) ->
  validated s (snd (bind no_grad_enter k s)).
Proof.
  intros Hk. unfold bind. simpl.
  destruct (Hk (grad_enabled s)
               (with_trace (with_modes s false (training s))
                           (trace s ++ [EvNoGrad true])) eq_refl)
    as (Hp & Hg & Hgr & evs & Ht & Hq).
  repeat split; auto.
  exists evs. split; [| exact Hq].
  rewrite Ht. simpl. now rewrite <- app_assoc.
Qed.

Lemma mask_validate_validated args val_set epoch b (s : mach) :
  validated s (snd (mask_validate args val_set epoch b s)).
Proof.
  unfold mask_validate. apply quiet_out_after_enter. intros prev.
  apply steps_out_bind; [apply steps_in_emit; reflexivity | intros _].
  apply steps_out_bind; [apply steps_in_model_eval | intros _].
  apply steps_out_bind; [apply steps_in_mask_val_loop | intros v].
  apply steps_out_bind.
  - destruct (fgt _ _); quiet_block.
  - intros best_val_acc'. quiet_block.
Qed.

Lemma gender_age_validate_validated args val_set epoch b (s : mach) :
  validated s (snd (gender_age_validate args val_set epoch b s)).
Proof.
  unfold gender_age_validate. apply quiet_out_after_enter. intros prev.
  apply steps_out_bind; [apply steps_in_emit; reflexivity | intros _].
  apply steps_out_bind; [apply steps_in_model_eval | intros _].
  apply steps_out_bind; [apply steps_in_gender_age_val_loop | intros v].
  apply steps_out_bind.
  - destruct (flt _ _); quiet_block.
  - intros best_val_loss'. quiet_block.
Qed.

(** C8. In both training loops the validation block of an epoch, however
    it ends, runs after entering the no-gradient context and performs no
    [zero_grad], no backward pass and no optimizer step; it leaves the
    parameters, the gradients and the autograd graph as the train phase
    left them, so the next epoch's train phase starts from the
    parameters the last optimizer step produced. *)
Theorem validation_keeps_parameters args train_set val_set epoch :
  (forall b (s : mach),
      validated s (snd (mask_validate args val_set epoch b s))
      /\ params (snd (mask_epoch args train_set val_set epoch b s))
         = params (snd (mask_train_phase args train_set epoch s)))
  /\
  (forall b (s : mach),
      validated s (snd (gender_age_validate args val_set epoch b s))
      /\ params (snd (gender_age_epoch args train_set val_set epoch b s))
         = params (snd (gender_age_train_phase args train_set epoch s))).
Proof.
  split; intros b s; (split; [first [apply mask_validate_validated
                                    | apply gender_age_validate_validated] |]).
  - unfold mask_epoch, bind.
    destruct (mask_train_phase args train_set epoch s) as [[[] | e] s1]; simpl; auto.
    apply mask_validate_validated.
  - unfold gender_age_epoch, bind.
    destruct (gender_age_train_phase args train_set epoch s) as [[[] | e] s1];
      simpl; auto.
    apply gender_age_validate_validated.
Qed.

End ValidationFrame.


(* ===================================================================== *)
(** * Facts: the multi-task training step *)
(* ===================================================================== *)

Section GenderAgeStep.
Context {Params Sample Grad : Type} `{FW : Framework Params Sample Grad}.
Local Notation "'mach'" := (@machine Params Sample Grad).
Local Open Scope m_scope.





(** Without [retain_graph=True] on the first backward pass the second
    one finds the graph freed. *)
Lemma second_backward_needs_retained_graph (s : mach) batch :
  fst ((zero_grad OptGender ;; zero_grad OptAge ;;
        o <- forward batch ;;
        backward GenderLoss o false ;;
        backward AgeLoss o false) s) = Raise RuntimeError.
Proof.
  unfold bind, zero_grad, forward, backward. simpl.
  destruct (grad_enabled s); simpl.
  - reflexivity.
  - destruct (graph s); reflexivity.
Qed.

Lemma window_full_ok args idx :
  log_interval args <> 0 ->
  window_full args idx = Ok ((idx + 1) mod log_interval args =? 0).
Proof.
  intros H. unfold window_full. destruct (Z.eqb_spec (log_interval args) 0); congruence.
Qed.





(** The two optimizers as [gender_age_train] installs them. *)
Lemma gender_age_optimizers_installed args (s : mach) :
  let s' := snd ((set_optimizer OptGender (gender_optimizer args) ;;
                  set_optimizer OptAge (age_optimizer args)) s) in
  opt s' OptGender = gender_optimizer args /\ opt s' OptAge = age_optimizer args.
Proof. split; reflexivity. Qed.


End GenderAgeStep.


(* ===================================================================== *)
(** * Facts: numbers *)
(* ===================================================================== *)






(* ===================================================================== *)
(** * Facts: the running metrics of a logging window *)
(* ===================================================================== *)

Section WindowFacts.
Context {Params Sample Grad : Type} `{FW : Framework Params Sample Grad}.
Local Notation "'mach'" := (@machine Params Sample Grad).
Local Open Scope m_scope.

(** The window after a list of adds. *)
Definition window_after (adds : list (fnum * Z)) (w : window) : window :=
  fold_left (fun w a => window_add w (fst a) (snd a)) adds w.

(** What the train steps over the batches [bs] add to the window, one
    pair per batch, and the state in which they leave the machine. *)
Fixpoint mask_steps (bs : list (list Sample)) (s : mach) : list (fnum * Z) * mach :=
  match bs with
  | [] => ([], s)
  | b :: rest =>
      let r := mask_steps rest (snd (mask_train_step b s)) in
      ((loss_of MaskLoss (params s) (training s) b,
        matches_of MaskTask (params s) (training s) b) :: fst r, snd r)
  end.




Lemma mask_train_step_run (s : mach) batch :
  grad_enabled s = true ->
  exists s',
    mask_train_step batch s
    = (Ok {| o_params := params s; o_training := training s; o_batch := batch |}, s')
    /\ grad_enabled s' = true /\ training s' = training s /\ opt s' = opt s
    /\ files s' = files s.
Proof.
  intros Hge. eexists.
  unfold mask_train_step, bind, zero_grad, forward, backward, opt_step, ret.
  simpl. rewrite Hge. simpl. repeat split; simpl; auto.
Qed.









End WindowFacts.


(* ===================================================================== *)
(** * Facts: validation metrics and the checkpoint policy *)
(* ===================================================================== *)

Section CheckpointFacts.
Context {Params Sample Grad : Type} `{FW : Framework Params Sample Grad}.
Local Notation "'mach'" := (@machine Params Sample Grad).
Local Open Scope m_scope.

(** The validation batches of an epoch. *)
Definition val_batches (args : Args) (val_set : list Sample) : list (list Sample) :=
  batches (Z.to_nat (valid_batch_size args)) true val_set.

(** [len(val_loader)] as a float. *)
Definition len_val_loader (args : Args) (val_set : list Sample) : fnum :=
  of_Z (Z.of_nat (loader_len (Z.to_nat (valid_batch_size args)) true val_set)).

(** The metrics [mask_train] computes at the end of the validation loop,
    for the parameters [p] the train phase produced. *)
Definition mask_val_loss (args : Args) (p : Params) (val_set : list Sample) : fnum :=
  np_div (np_sum (map (loss_of MaskLoss p false) (val_batches args val_set)))
         (len_val_loader args val_set).

Definition mask_val_acc (args : Args) (p : Params) (val_set : list Sample) : fnum :=
  np_div (np_sum_int (map (matches_of MaskTask p false) (val_batches args val_set)))
         (of_Z (Z.of_nat (length val_set))).

(** The combined loss [gender_age_train] decides on. *)
Definition gender_age_val_loss (args : Args) (p : Params) (val_set : list Sample)
  : fnum :=
  fadd (np_div (np_sum (map (loss_of GenderLoss p false) (val_batches args val_set)))
               (len_val_loader args val_set))
       (np_div (np_sum (map (loss_of AgeLoss p false) (val_batches args val_set)))
               (len_val_loader args val_set)).

Definition gender_age_val_acc (args : Args) (p : Params) (val_set : list Sample)
  : fnum :=
  np_div (np_sum_int (map (matches_of GenderTask p false) (val_batches args val_set)))
         (of_Z (Z.of_nat (length val_set))).

Lemma mask_val_loop_ok bs : forall v (s : mach) v' s',
  training s = false ->
  mask_val_loop bs v s = (Ok v', s') ->
  val_loss_items v' = (val_loss_items v ++ map (loss_of MaskLoss (params s) false) bs)%list
  /\ val_acc_items v' = (val_acc_items v ++ map (matches_of MaskTask (params s) false) bs)%list
  /\ figure v' = (figure v || match bs with [] => false | _ => true end)%bool
  /\ params s' = params s /\ files s' = files s
  /\ grad_enabled s' = grad_enabled s
  /\ trace s' = (trace s ++ repeat EvForward (length bs))%list.
Proof.
  induction bs as [| b rest IH]; intros v s v' s' Htr H.
  - cbn in H. injection H as <- <-. rewrite !app_nil_r, orb_false_r. auto 10.
  - cbn [mask_val_loop] in H. unfold bind at 1 in H. cbn [forward] in H.
    unfold bind at 1 in H.
    assert (Hgo : forall fig s1,
               s1 = with_trace
                      (with_model s (params s) (grads s)
                         (if grad_enabled s
                          then Some {| o_params := params s; o_training := training s;
                                       o_batch := b |}
                          else graph s))
                      (trace s ++ [EvForward]) ->
               mask_val_loop rest
                 {| val_loss_items :=
                      val_loss_items v ++ [loss_of MaskLoss (params s) (training s) b];
                    val_acc_items :=
                      val_acc_items v ++ [matches_of MaskTask (params s) (training s) b];
                    figure := fig |} s1 = (Ok v', s') ->
               val_loss_items v'
               = (val_loss_items v ++ map (loss_of MaskLoss (params s) false) (b :: rest))%list
               /\ val_acc_items v'
                  = (val_acc_items v
                     ++ map (matches_of MaskTask (params s) false) (b :: rest))%list
               /\ params s' = params s /\ files s' = files s
               /\ grad_enabled s' = grad_enabled s
               /\ trace s' = (trace s ++ repeat EvForward (length (b :: rest)))%list
               /\ figure v' = (fig || match rest with [] => false | _ => true end)%bool).
    { intros fig s1 -> H1. apply IH in H1; [| exact Htr].
      cbn in H1. destruct H1 as (Hl & Ha & Hf & Hp & Hfi & Hge & Ht).
      rewrite Htr in Hl, Ha. rewrite <- !app_assoc in Hl, Ha. cbn in Hl, Ha.
      rewrite <- app_assoc in Ht. auto 10. }
    destruct (figure v) eqn:Hfig.
    + unfold ret at 1 in H. cbn [o_params o_training o_batch] in H.
      destruct (Hgo true _ eq_refl H) as (Hl & Ha & Hp & Hfi & Hge & Ht & Hf).
      rewrite Hf. cbn. auto 10.
    + unfold grid_image in H. destruct (16 <=? Z.of_nat (length b)).
      * unfold ret at 1 in H. cbn [o_params o_training o_batch] in H.
        destruct (Hgo true _ eq_refl H) as (Hl & Ha & Hp & Hfi & Hge & Ht & Hf).
        rewrite Hf. cbn. auto 10.
      * cbn in H. discriminate.
Qed.

(** What the validation block of [mask_train] does when it completes:
    the metrics it reports, the checkpoints it writes, the best values. *)
Lemma mask_validate_ok args val_set epoch b (s : mach) b' s' :
  mask_validate args val_set epoch b s = (Ok b', s') ->
  let val_acc := mask_val_acc args (params s) val_set in
  let val_loss := mask_val_loss args (params s) val_set in
  params s' = params s
  /\ files s'
     = <["last.pth" := Checkpoint (params s)]>
         (if fgt val_acc (best_val_acc b)
          then <["best.pth" := Checkpoint (params s)]> (files s) else files s)
  /\ b' = {| best_val_acc := if fgt val_acc (best_val_acc b)
                             then val_acc else best_val_acc b;
             best_val_loss := py_min (best_val_loss b) val_loss |}
  /\ exists evs,
       trace s' = (trace s ++ evs)%list
       /\ In (EvScalar "Val/loss" val_loss epoch) evs
       /\ In (EvScalar "Val/accuracy" val_acc epoch) evs.
Proof.
  intros H. cbv zeta.
  unfold mask_validate in H. unfold bind at 1 in H. cbn [no_grad_enter] in H.
  unfold bind at 1 in H. cbn [emit] in H.
  unfold bind at 1 in H. cbn [model_eval] in H.
  unfold bind at 1 in H.
  match type of H with
  | context [mask_val_loop ?bs ?v ?s0] =>
      destruct (mask_val_loop bs v s0) as [[v' | e] s3] eqn:Hloop; [| discriminate]
  end.
  apply mask_val_loop_ok in Hloop; [| reflexivity].
  cbn in Hloop. destruct Hloop as (Hl & Ha & Hf & Hp & Hfi & Hge & Ht).
  fold (val_batches args val_set) in Hl, Ha, Ht, Hf.
  unfold mask_val_acc, mask_val_loss, len_val_loader.
  rewrite <- Hl, <- Ha.
  set (val_acc := np_div (np_sum_int (val_acc_items v')) _) in *.
  set (val_loss := np_div (np_sum (val_loss_items v')) _) in *.
  unfold add_figure in H.
  destruct (fgt val_acc (best_val_acc b)) eqn:Hgt;
    unfold bind, emit, save, ret, no_grad_exit in H; cbn in H;
    destruct (figure v' || add_figure_none_ok); cbn in H; try discriminate;
    injection H as <- <-; cbn; rewrite Hp, Hfi, Ht;
    (repeat split; auto);
    eexists; (split; [repeat rewrite <- app_assoc; reflexivity |]);
    rewrite !in_app_iff; cbn; auto 20.
Qed.

Lemma gender_age_val_loop_ok bs : forall v (s : mach) v' s',
  training s = false ->
  gender_age_val_loop bs v s = (Ok v', s') ->
  val_gender_acc_items v'
  = (val_gender_acc_items v ++ map (matches_of GenderTask (params s) false) bs)%list
  /\ val_gender_loss_items v'
     = (val_gender_loss_items v ++ map (loss_of GenderLoss (params s) false) bs)%list
  /\ val_age_loss_items v'
     = (val_age_loss_items v ++ map (loss_of AgeLoss (params s) false) bs)%list
  /\ params s' = params s /\ files s' = files s
  /\ trace s' = (trace s ++ repeat EvForward (length bs))%list.
Proof.
  induction bs as [| b rest IH]; intros v s v' s' Htr H.
  - cbn in H. injection H as <- <-. rewrite !app_nil_r. auto 10.
  - cbn [gender_age_val_loop] in H. unfold bind at 1 in H. cbn [forward] in H.
    unfold bind at 1 in H.
    assert (Hfig : exists fig s1,
               s1 = with_trace
                      (with_model s (params s) (grads s)
                         (if grad_enabled s
                          then Some {| o_params := params s; o_training := training s;
                                       o_batch := b |}
                          else graph s))
                      (trace s ++ [EvForward])
               /\ gender_age_val_loop rest
                    {| val_gender_acc_items :=
                         val_gender_acc_items v
                         ++ [matches_of GenderTask (params s) (training s) b];
                       val_gender_loss_items :=
                         val_gender_loss_items v
                         ++ [loss_of GenderLoss (params s) (training s) b];
                       val_age_loss_items :=
                         val_age_loss_items v
                         ++ [loss_of AgeLoss (params s) (training s) b];
                       figure_ga := fig |} s1 = (Ok v', s')).
    { destruct (figure_ga v).
      - unfold ret at 1 in H. eauto.
      - unfold grid_image in H. destruct (16 <=? Z.of_nat (length b)).
        + unfold ret at 1 in H. eauto.
        + cbn in H. discriminate. }
    destruct Hfig as (fig & s1 & -> & H1).
    apply IH in H1; [| exact Htr].
    cbn in H1. destruct H1 as (Ha & Hg & Hl & Hp & Hfi & Ht).
    rewrite Htr in Ha, Hg, Hl. rewrite <- !app_assoc in Ha, Hg, Hl. cbn in Ha, Hg, Hl.
    rewrite <- app_assoc in Ht. auto 10.
Qed.

(** The same for [gender_age_train]: the decision is on the combined
    loss, the lower the better. *)
Lemma gender_age_validate_ok args val_set epoch b (s : mach) b' s' :
  gender_age_validate args val_set epoch b s = (Ok b', s') ->
  let val_loss := gender_age_val_loss args (params s) val_set in
  let val_gender_acc := gender_age_val_acc args (params s) val_set in
  params s' = params s
  /\ files s'
     = <["last.pth" := Checkpoint (params s)]>
         (if flt val_loss (best_val_loss_ga b)
          then <["best.pth" := Checkpoint (params s)]> (files s) else files s)
  /\ b' = {| best_val_gender_acc := py_max (best_val_gender_acc b) val_gender_acc;
             best_val_loss_ga := if flt val_loss (best_val_loss_ga b)
                                 then val_loss else best_val_loss_ga b |}.
Proof.
  intros H. cbv zeta.
  unfold gender_age_validate in H. unfold bind at 1 in H. cbn [no_grad_enter] in H.
  unfold bind at 1 in H. cbn [emit] in H.
  unfold bind at 1 in H. cbn [model_eval] in H.
  unfold bind at 1 in H.
  match type of H with
  | context [gender_age_val_loop ?bs ?v ?s0] =>
      destruct (gender_age_val_loop bs v s0) as [[v' | e] s3] eqn:Hloop;
        [| discriminate]
  end.
  apply gender_age_val_loop_ok in Hloop; [| reflexivity].
  cbn in Hloop. destruct Hloop as (Ha & Hg & Hl & Hp & Hfi & Ht).
  fold (val_batches args val_set) in Ha, Hg, Hl.
  unfold gender_age_val_acc, gender_age_val_loss, len_val_loader.
  rewrite <- Ha, <- Hg, <- Hl.
  set (val_loss := fadd _ _) in *.
  unfold add_figure in H.
  destruct (flt val_loss (best_val_loss_ga b)) eqn:Hlt;
    unfold bind, emit, save, ret, no_grad_exit in H; cbn in H;
    destruct (figure_ga v' || add_figure_none_ok); cbn in H; try discriminate;
    injection H as <- <-; cbn; rewrite Hp, Hfi; repeat split; auto.
Qed.

(** The train phases write no file. *)
Definition same_files (s s' : mach) : Prop := files s' = files s.

Lemma same_files_refl s : same_files s s.
Proof. reflexivity. Qed.

Lemma same_files_trans s1 s2 s3 :
  same_files s1 s2 -> same_files s2 s3 -> same_files s1 s3.
Proof. unfold same_files. congruence. Qed.

Lemma same_files_bind {A B} (m : M mach A) (k : A -> M mach B) :
  steps same_files m -> (forall a, steps same_files (k a)) ->
  steps same_files (bind m k).
Proof.
  intros Hm Hk.
  apply (steps_bind same_files same_files same_files);
    [exact same_files_trans | trivial | exact Hm | exact Hk].
Qed.

Ltac same_files_block :=
  repeat first
    [ apply steps_ret, same_files_refl
    | apply steps_lift, same_files_refl
    | apply same_files_bind; [| intros ?]
    | intros ?; exact eq_refl ].

Lemma same_files_backward l o r : steps same_files (backward l o r).
Proof. intros s. unfold backward. destruct (graph s); exact eq_refl. Qed.

Lemma same_files_mask_train_loop args epoch len_train_loader bs :
  forall idx w, steps same_files (mask_train_loop args epoch len_train_loader bs idx w).
Proof.
  induction bs as [| b rest IH]; intros idx w; cbn [mask_train_loop].
  - apply steps_ret, same_files_refl.
  - apply same_files_bind; [| intros w'; apply IH].
    unfold mask_train_iter, mask_train_step.
    apply same_files_bind.
    + apply same_files_bind; [intros ?; exact eq_refl | intros _].
      apply same_files_bind; [intros ?; exact eq_refl | intros o].
      apply same_files_bind; [apply same_files_backward | intros _].
      same_files_block.
    + intros o. apply same_files_bind; [apply steps_lift, same_files_refl |].
      intros [|]; same_files_block.
Qed.

Lemma same_files_gender_age_train_loop args epoch len_train_loader bs :
  forall idx w,
    steps same_files (gender_age_train_loop args epoch len_train_loader bs idx w).
Proof.
  induction bs as [| b rest IH]; intros idx w; cbn [gender_age_train_loop].
  - apply steps_ret, same_files_refl.
  - apply same_files_bind; [| intros w'; apply IH].
    unfold gender_age_train_iter, gender_age_train_step.
    apply same_files_bind.
    + apply same_files_bind; [intros ?; exact eq_refl | intros _].
      apply same_files_bind; [intros ?; exact eq_refl | intros _].
      apply same_files_bind; [intros ?; exact eq_refl | intros o].
      apply same_files_bind; [apply same_files_backward | intros _].
      apply same_files_bind; [apply same_files_backward | intros _].
      same_files_block.
    + intros o. apply same_files_bind; [apply steps_lift, same_files_refl |].
      intros [|]; same_files_block.
Qed.

Lemma same_files_mask_train_phase args train_set epoch :
  steps same_files (mask_train_phase args train_set epoch).
Proof.
  unfold mask_train_phase.
  apply same_files_bind; [intros ?; exact eq_refl | intros _].
  apply same_files_bind; [apply same_files_mask_train_loop | intros _].
  intros ?; exact eq_refl.
Qed.

Lemma same_files_gender_age_train_phase args train_set epoch :
  steps same_files (gender_age_train_phase args train_set epoch).
Proof.
  unfold gender_age_train_phase.
  apply same_files_bind; [intros ?; exact eq_refl | intros _].
  apply same_files_bind; [apply same_files_gender_age_train_loop | intros _].
  apply same_files_bind; [intros ?; exact eq_refl | intros _ ?; exact eq_refl].
Qed.

Lemma mask_epoch_ok args train_set val_set epoch b (s : mach) b' s' :
  mask_epoch args train_set val_set epoch b s = (Ok b', s') ->
  let val_acc := mask_val_acc args (params s') val_set in
  files s'
  = <["last.pth" := Checkpoint (params s')]>
      (if fgt val_acc (best_val_acc b)
       then <["best.pth" := Checkpoint (params s')]> (files s) else files s)
  /\ best_val_acc b' = (if fgt val_acc (best_val_acc b)
                        then val_acc else best_val_acc b).
Proof.
  intros H. cbv zeta. unfold mask_epoch, bind in H.
  pose proof (same_files_mask_train_phase args train_set epoch s) as Hfiles.
  destruct (mask_train_phase args train_set epoch s) as [[[] | e] s1]; [| discriminate].
  cbn in Hfiles. unfold same_files in Hfiles.
  apply mask_validate_ok in H. cbv zeta in H.
  destruct H as (Hp & Hf & Hb & _). rewrite Hp, Hf, Hfiles, Hb. auto.
Qed.

Lemma gender_age_epoch_ok args train_set val_set epoch b (s : mach) b' s' :
  gender_age_epoch args train_set val_set epoch b s = (Ok b', s') ->
  let val_loss := gender_age_val_loss args (params s') val_set in
  files s'
  = <["last.pth" := Checkpoint (params s')]>
      (if flt val_loss (best_val_loss_ga b)
       then <["best.pth" := Checkpoint (params s')]> (files s) else files s)
  /\ best_val_loss_ga b' = (if flt val_loss (best_val_loss_ga b)
                            then val_loss else best_val_loss_ga b).
Proof.
  intros H. cbv zeta. unfold gender_age_epoch, bind in H.
  pose proof (same_files_gender_age_train_phase args train_set epoch s) as Hfiles.
  destruct (gender_age_train_phase args train_set epoch s) as [[[] | e] s1];
    [| discriminate].
  cbn in Hfiles. unfold same_files in Hfiles.
  apply gender_age_validate_ok in H. cbv zeta in H.
  destruct H as (Hp & Hf & Hb). rewrite Hp, Hf, Hfiles, Hb. auto.
Qed.

(** The two files of a run directory after a write of [last.pth] on top
    of a possible write of [best.pth]. *)
Lemma checkpoints_after (improved : bool) (p : Params) (f : gmap string (blob Params)) :
  let f' := <["last.pth" := Checkpoint p]>
              (if improved then <["best.pth" := Checkpoint p]> f else f) in
  f' !! "last.pth" = Some (Checkpoint p)
  /\ f' !! "best.pth" = (if improved then Some (Checkpoint p) else f !! "best.pth").
Proof.
  cbv zeta. split; [apply lookup_insert_eq |].
  rewrite lookup_insert_ne by discriminate.
  destruct improved; [apply lookup_insert_eq | reflexivity].
Qed.

(** C1, as the code has it.  The best metric starts at the worst value:
    accuracy 0 in [mask_train], combined loss [+inf] in
    [gender_age_train].  Every epoch that completes overwrites
    [last.pth] with the current parameters; it overwrites [best.pth]
    exactly when its metric is strictly better than the best so far
    (accuracy higher, combined loss lower) and otherwise leaves
    [best.pth] as it was.  So after the first epoch [last.pth] exists,
    and [best.pth] exists when the first validation accuracy is above 0
    (the first combined loss below [+inf]) or the run directory already
    held one. *)
Theorem checkpoint_policy args train_set val_set epoch (s : mach) :
  (best_val_acc mask_best_init = fzero
   /\ best_val_loss_ga gender_age_best_init = np_inf)
  /\ (forall b b' s',
         mask_epoch args train_set val_set epoch b s = (Ok b', s') ->
         let improved := fgt (mask_val_acc args (params s') val_set) (best_val_acc b) in
         files s' !! "last.pth" = Some (Checkpoint (params s'))
         /\ files s' !! "best.pth"
            = (if improved then Some (Checkpoint (params s')) else files s !! "best.pth")
         /\ best_val_acc b'
            = (if improved then mask_val_acc args (params s') val_set
               else best_val_acc b))
  /\ (forall b b' s',
         gender_age_epoch args train_set val_set epoch b s = (Ok b', s') ->
         let improved :=
           flt (gender_age_val_loss args (params s') val_set) (best_val_loss_ga b) in
         files s' !! "last.pth" = Some (Checkpoint (params s'))
         /\ files s' !! "best.pth"
            = (if improved then Some (Checkpoint (params s')) else files s !! "best.pth")
         /\ best_val_loss_ga b'
            = (if improved then gender_age_val_loss args (params s') val_set
               else best_val_loss_ga b))
  /\ (files s !! "best.pth" = None ->
      (forall b' s',
          mask_epoch args train_set val_set epoch mask_best_init s = (Ok b', s') ->
          is_Some (files s' !! "last.pth")
          /\ (is_Some (files s' !! "best.pth")
              <-> fgt (mask_val_acc args (params s') val_set) fzero = true))
      /\ (forall b' s',
             gender_age_epoch args train_set val_set epoch gender_age_best_init s
             = (Ok b', s') ->
             is_Some (files s' !! "last.pth")
             /\ (is_Some (files s' !! "best.pth")
                 <-> flt (gender_age_val_loss args (params s') val_set) np_inf = true))).
Proof.
  split; [split; reflexivity |]. split; [| split]; [| | intros Hfresh; split].
  4:{ intros b' s' H. apply gender_age_epoch_ok in H. cbv zeta in H.
      destruct H as (Hf & _). rewrite Hf.
      destruct (checkpoints_after
                  (flt (gender_age_val_loss args (params s') val_set)
                       (best_val_loss_ga gender_age_best_init))
                  (params s') (files s)) as (Hlast & Hbest).
      cbv zeta in Hlast, Hbest. rewrite Hlast, Hbest, Hfresh.
      split; [eauto |]. cbn [best_val_loss_ga gender_age_best_init].
      destruct (flt _ np_inf); split; intros H; try discriminate; eauto.
      destruct H; discriminate. }
  3:{ intros b' s' H. apply mask_epoch_ok in H. cbv zeta in H.
      destruct H as (Hf & _). rewrite Hf.
      destruct (checkpoints_after
                  (fgt (mask_val_acc args (params s') val_set)
                       (best_val_acc mask_best_init))
                  (params s') (files s)) as (Hlast & Hbest).
      cbv zeta in Hlast, Hbest. rewrite Hlast, Hbest, Hfresh.
      split; [eauto |]. cbn [best_val_acc mask_best_init].
      destruct (fgt _ fzero); split; intros H; try discriminate; eauto.
      destruct H; discriminate. }
  - intros b b' s' H. cbv zeta. apply mask_epoch_ok in H. cbv zeta in H.
    destruct H as (Hf & Hb). rewrite Hf, Hb.
    destruct (checkpoints_after
                (fgt (mask_val_acc args (params s') val_set) (best_val_acc b))
                (params s') (files s)) as (Hlast & Hbest).
    auto.
  - intros b b' s' H. cbv zeta. apply gender_age_epoch_ok in H. cbv zeta in H.
    destruct H as (Hf & Hb). rewrite Hf, Hb.
    destruct (checkpoints_after
                (flt (gender_age_val_loss args (params s') val_set)
                     (best_val_loss_ga b))
                (params s') (files s)) as (Hlast & Hbest).
    auto.
Qed.

End CheckpointFacts.


(* ===================================================================== *)
(** * Facts: a validation set smaller than a batch *)
(* ===================================================================== *)

Section ShortValidationSet.
Context {Params Sample Grad : Type} `{FW : Framework Params Sample Grad}.
Local Notation "'mach'" := (@machine Params Sample Grad).
Local Open Scope m_scope.



End ShortValidationSet.


(* ===================================================================== *)
(** * Facts: inference *)
(* ===================================================================== *)

Section InferenceFacts.
Variable model : cell -> list Q.
Variable softmax : list Q -> list Q.

(** The hard prediction for one image. *)
Definition hard_pred (image : cell) : cell := CInt (Z.of_nat (argmax (model image))).

(** The predictions come out one per image, in the order of the
    manifest, whatever the batch size. *)
Lemma predict_in_order v B ids :
  (0 < B)%nat ->
  predict model softmax v (batches B false ids)
  = map (fun image =>
           match v with
           | Hard => [hard_pred image]
           | Soft => map CNum (softmax (model image))
           | OtherVoting _ => map CNum (model image)
           end) ids.
Proof.
  intros HB. unfold predict. rewrite flat_map_concat_map.
  rewrite <- (batches_keep_last B ids HB) at 2.
  rewrite concat_map. reflexivity.
Qed.

Lemma voting_of_hard : voting_of "hard" = Hard.
Proof. reflexivity. Qed.

Lemma voting_of_soft : voting_of "soft" = Soft.
Proof. reflexivity. Qed.

Lemma has_column_get c df :
  has_column c df = match get_column c df with Some _ => true | None => false end.
Proof. reflexivity. Qed.

(** C5. Hard voting: whatever the batch size, the prediction for an
    image is the arg-max of the model's logits for it (logits
    [[5,1,0],[0,0,9]] give [0, 2]), the predictions keep the order of the
    manifest, and for a manifest with the column [ImageID], with or
    without a column [ans], [output.csv] has one row per image and the
    columns [ImageID] and [ans]. *)
Theorem inference_hard args info ids dir :
  voting_type args = "hard" ->
  0 < inf_batch_size args ->
  (info = [("ImageID", ids)] \/ exists a, info = [("ImageID", ids); ("ans", a)]) ->
  inference model softmax args info dir
  = (Ok tt, <["output.csv" := [("ImageID", ids); ("ans", map hard_pred ids)]]> dir)
  /\ length (map hard_pred ids) = length ids
  /\ map argmax [[5; 1; 0]; [0; 0; 9]]%Q = [0; 2]%nat.
Proof.
  intros Hv Hb Hinfo.
  split; [| split; [apply length_map | reflexivity]].
  assert (Hids : get_column "ImageID" info = Some ids)
    by (destruct Hinfo as [-> | [a ->]]; reflexivity).
  unfold inference. rewrite Hids, Hv, voting_of_hard.
  destruct (Z.leb_spec (inf_batch_size args) 0) as [| _]; [lia |].
  rewrite predict_in_order by lia.
  unfold bind, lift, assemble. rewrite map_map. cbn [hd].
  unfold set_column. rewrite !length_map.
  destruct Hinfo as [-> | [a ->]]; cbn [nrows]; rewrite Nat.eqb_refl; reflexivity.
Qed.

Lemma map_fst_combine_le {A B} (l1 : list A) : forall (l2 : list B),
  (length l1 <= length l2)%nat -> map fst (combine l1 l2) = l1.
Proof.
  induction l1 as [| x l1 IH]; intros [| y l2] H; simpl in *;
    [reflexivity | reflexivity | lia | f_equal; apply IH; lia].
Qed.

(** Soft voting on a manifest with the columns [ImageID] and [ans], for
    a model of [num_classes] outputs: the column [ans] is gone, the
    columns are [ImageID] and the class numbers, and the row of an image
    is what [softmax] gives on its logits. *)
Lemma inference_soft_table args ids a dir :
  voting_type args = "soft" ->
  0 < inf_batch_size args ->
  ids <> [] ->
  (forall image, length (softmax (model image)) = num_classes) ->
  let probs := map (fun image => map CNum (softmax (model image))) ids in
  let out := combine columns_name (ids :: columns_of_rows probs) in
  inference model softmax args [("ImageID", ids); ("ans", a)] dir
  = (Ok tt, <["output.csv" := out]> dir)
  /\ map fst out = columns_name
  /\ has_column "ans" out = false
  /\ (forall j, (j < num_classes)%nat ->
                nth_error (map snd out) (S j)
                = Some (map (fun image => nth j (map CNum (softmax (model image)))
                                              (CInt 0)) ids)).
Proof.
  intros Hv Hb Hids Hw. cbv zeta.
  set (probs := map (fun image => map CNum (softmax (model image))) ids).
  assert (Hcols : columns_of_rows probs
                  = map (fun j => map (fun row => nth j row (CInt 0)) probs)
                        (seq 0 num_classes)).
  { subst probs. destruct ids as [| i0 ids']; [congruence |].
    cbn [map columns_of_rows]. now rewrite length_map, Hw. }
  assert (Hlen : length (ids :: columns_of_rows probs) = length columns_name).
  { rewrite Hcols. cbn [length]. rewrite length_map, length_seq. reflexivity. }
  split; [| split; [| split]].
  - unfold inference. cbn [get_column String.eqb Ascii.eqb Bool.eqb].
    rewrite Hv, voting_of_soft.
    destruct (Z.leb_spec (inf_batch_size args) 0) as [| _]; [lia |].
    rewrite predict_in_order by lia. fold probs.
    unfold bind, lift, assemble. cbn -[columns_name columns_of_rows].
    unfold column_stack_named. cbn [map snd app].
    rewrite Hlen, Nat.eqb_refl. reflexivity.
  - apply map_fst_combine_le. rewrite Hlen. reflexivity.
  - rewrite Hcols. reflexivity.
  - intros j Hj. rewrite Hcols.
    assert (Hsnd : forall (l1 : list string) (l2 : list (list cell)),
               length l1 = length l2 -> map snd (combine l1 l2) = l2).
    { induction l1 as [| x l1 IH]; intros [| y l2] H; simpl in *;
        try reflexivity; try discriminate. f_equal. apply IH. lia. }
    rewrite Hsnd by (rewrite <- Hcols; now rewrite Hlen).
    cbn [nth_error]. rewrite nth_error_map, nth_error_seq.
    destruct (Nat.ltb_spec j num_classes); [| lia]. cbn.
    subst probs. now rewrite map_map.
Qed.

(** C9. Soft voting drops the column [ans] whether the manifest has it
    or not: on a manifest with the column [ImageID] and no column [ans]
    it raises [KeyError] and writes nothing, where hard voting on the
    same manifest writes [output.csv], the predictions in a new last
    column. *)
Theorem inference_soft_needs_ans args_soft args_hard info ids dir :
  voting_type args_soft = "soft" -> voting_type args_hard = "hard" ->
  0 < inf_batch_size args_soft -> 0 < inf_batch_size args_hard ->
  get_column "ImageID" info = Some ids ->
  has_column "ans" info = false ->
  nrows info = length ids ->
  inference model softmax args_soft info dir = (Raise (KeyError "ans"), dir)
  /\ inference model softmax args_hard info dir
     = (Ok tt, <["output.csv" := (info ++ [("ans", map hard_pred ids)])%list]> dir).
Proof.
  intros Hs Hh Hbs Hbh Hids Hans Hrows. split.
  - unfold inference. rewrite Hids, Hs, voting_of_soft.
    destruct (Z.leb_spec (inf_batch_size args_soft) 0) as [| _]; [lia |].
    unfold bind, lift, assemble, drop_column. now rewrite Hans.
  - unfold inference. rewrite Hids, Hh, voting_of_hard.
    destruct (Z.leb_spec (inf_batch_size args_hard) 0) as [| _]; [lia |].
    rewrite predict_in_order by lia.
    unfold bind, lift, assemble. rewrite map_map. cbn [hd].
    unfold set_column. rewrite !length_map, Hrows, Nat.eqb_refl, Hans.
    reflexivity.
Qed.

End InferenceFacts.


(* ===================================================================== *)
(** * A small instance *)
(* ===================================================================== *)

(** A model whose parameters are the number of optimizer steps taken and
    whose gradients are the number of backward passes since the last
    [zero_grad].  A sample is [true] when the model classifies it right,
    whatever its parameters; every batch has loss 1/2. *)
Definition toy (figure_none_ok : bool) : Framework nat bool nat :=
  {| loss_of := fun _ _ _ _ => Fin (1 # 2);
     matches_of := fun _ _ _ batch => Z.of_nat (count_occ bool_dec batch true);
     backward_of := fun _ _ _ g => S g;
     zero_of := fun _ _ => O;
     step_of := fun _ g p => (p + g)%nat;
     sched_of := fun _ _ o => o;
     shuffle_of := fun _ l => l;
     add_figure_none_ok := figure_none_ok |}.

(** A fresh process in an empty run directory. *)
Definition toy_start : @machine nat bool nat :=
  {| params := O; grads := O; graph := None;
     grad_enabled := true; training := true;
     opt := fun _ => make_optimizer [] 0 0;
     last_epoch := fun _ => 0;
     files := ∅; trace := [] |}.

Definition toy_args (bsz vbsz : Z) (n_epochs : nat) : Args :=
  {| seed := 42; epochs := n_epochs; batch_size := bsz; valid_batch_size := vbsz;
     lr := 1 # 1000; lr_decay_step := 20; log_interval := 2;
     dataset_name := "MaskSplitByProfileDataset"; name := "exp" |}.

(** One epoch on four training samples, batches of two. *)
Definition toy_run (figure_none_ok : bool) (vbsz : Z) (val_set : list bool)
  : result best * @machine nat bool nat :=
  @mask_train nat bool nat (toy figure_none_ok) (toy_args 2 vbsz 1)
    (repeat true 4) val_set toy_start.

(** C1, counterexample.  A first epoch in which no validation sample is
    classified right has accuracy 0, which is not above the initial best
    0: the epoch completes and writes [last.pth], and the run directory
    has no [best.pth]. *)
Lemma first_epoch_without_best :
  fst (toy_run true 16 (repeat false 16))
  = Ok {| best_val_acc := fzero; best_val_loss := Fin (1 # 2) |}
  /\ files (snd (toy_run true 16 (repeat false 16))) !! "last.pth"
     = Some (Checkpoint 2%nat)
  /\ files (snd (toy_run true 16 (repeat false 16))) !! "best.pth" = None.
Proof. vm_compute. repeat split; reflexivity. Qed.

Lemma checkpoint_policy_witness :
  exists b' s',
    @mask_epoch nat bool nat (toy true) (toy_args 2 16 1)
      (repeat true 4) (repeat true 16) 0 mask_best_init toy_start = (Ok b', s')
    /\ files s' !! "last.pth" = Some (Checkpoint (params s'))
    /\ files s' !! "best.pth" = Some (Checkpoint (params s')).
Proof.
  eassert (E : @mask_epoch nat bool nat (toy true) (toy_args 2 16 1)
                 (repeat true 4) (repeat true 16) 0 mask_best_init toy_start
               = (Ok _, _)) by (vm_compute; reflexivity).
  destruct (proj1 (proj2 (@checkpoint_policy nat bool nat (toy true)
                            (toy_args 2 16 1) (repeat true 4) (repeat true 16)
                            0 toy_start)) _ _ _ E) as (Hlast & Hbest & _).
  do 2 eexists. split; [exact E |]. split; [exact Hlast |].
  rewrite Hbest. reflexivity.
Defined.

(** C3, at a failing input.  Seventeen validation samples, all of them
    classified right, in batches of sixteen: the loader drops the
    seventeenth, the count of right predictions is 16, and the accuracy
    reported for the epoch is 16/17, where the accuracy over the whole
    validation set is 17/17. *)
Lemma validation_accuracy_misses_partial_batch :
  matches_of (Framework := toy true) MaskTask O false (repeat true 17) = 17
  /\ fst (@mask_validate nat bool nat (toy true) (toy_args 2 16 1)
            (repeat true 17) 0 mask_best_init toy_start)
     = Ok {| best_val_acc := Fin (16 # 17); best_val_loss := Fin (1 # 2) |}
  /\ nth_error
       (trace (snd (@mask_validate nat bool nat (toy true) (toy_args 2 16 1)
                      (repeat true 17) 0 mask_best_init toy_start))) 9
     = Some (EvScalar "Val/accuracy" (Fin (16 # 17)) 0).
Proof. vm_compute. repeat split; reflexivity. Qed.





(** A three-class model for two images. *)
Definition two_images (image : cell) : list Q :=
  match image with
  | CStr "a.jpg" => [5; 1; 0]%Q
  | _ => [0; 0; 9]%Q
  end.

Definition inf_args (v : string) : InfArgs :=
  {| inf_batch_size := 64; voting_type := v |}.

Lemma inference_hard_witness :
  inference two_images (fun row => row) (inf_args "hard")
    [("ImageID", [CStr "a.jpg"; CStr "b.jpg"])] ∅
  = (Ok tt,
     {["output.csv" := [("ImageID", [CStr "a.jpg"; CStr "b.jpg"]);
                        ("ans", [CInt 0; CInt 2])]]}).
Proof.
  exact (proj1 (inference_hard two_images (fun row => row) (inf_args "hard")
                  [("ImageID", [CStr "a.jpg"; CStr "b.jpg"])]
                  [CStr "a.jpg"; CStr "b.jpg"] ∅
                  eq_refl eq_refl (or_introl eq_refl))).
Defined.

Lemma inference_soft_needs_ans_witness :
  inference two_images (fun row => row) (inf_args "soft")
    [("ImageID", [CStr "a.jpg"; CStr "b.jpg"])] ∅
  = (Raise (KeyError "ans"), ∅).
Proof.
  exact (proj1 (inference_soft_needs_ans two_images (fun row => row)
                  (inf_args "soft") (inf_args "hard")
                  [("ImageID", [CStr "a.jpg"; CStr "b.jpg"])]
                  [CStr "a.jpg"; CStr "b.jpg"] ∅
                  eq_refl eq_refl eq_refl eq_refl eq_refl eq_refl eq_refl)).
Defined.


(* ===================================================================== *)
(** * Further facts: inference *)
(* ===================================================================== *)

(** [r] is a position of [l], no entry of [l] is larger than the one at
    [r], and every entry before [r] is smaller. *)
Definition first_max (l : list Q) (r : nat) : Prop :=
  (r < length l)%nat
  /\ (forall j, (j < length l)%nat -> (nth j l 0 <= nth r l 0)%Q)
  /\ (forall j, (j < r)%nat -> (nth j l 0 < nth r l 0)%Q).

Lemma argmax_from_first_max l : forall pre best_i,
  first_max pre best_i ->
  first_max (pre ++ l) (argmax_from (nth best_i pre 0%Q) best_i (length pre) l).
Proof.
  induction l as [| x l IH]; intros pre best_i H.
  - simpl. now rewrite app_nil_r.
  - cbn [argmax_from]. destruct H as (Hlt & Hmax & Hfirst).
    replace (pre ++ x :: l)%list with ((pre ++ [x]) ++ l)%list
      by (now rewrite <- app_assoc).
    replace (S (length pre)) with (length (pre ++ [x]))
      by (rewrite length_app; simpl; lia).
    assert (Hnth : forall j, (j < length pre)%nat ->
                             nth j (pre ++ [x]) 0%Q = nth j pre 0%Q)
      by (intros j Hj; now apply app_nth1).
    assert (Hx : nth (length pre) (pre ++ [x]) 0%Q = x)
      by (rewrite app_nth2 by lia; now rewrite Nat.sub_diag).
    destruct (Qle_bool x (nth best_i pre 0%Q)) eqn:E.
    + apply Qle_bool_iff in E.
      pose proof (IH (pre ++ [x])%list best_i) as IH'.
      rewrite (Hnth best_i Hlt) in IH'. apply IH'.
      split; [rewrite length_app; simpl; lia |]. split.
      * intros j Hj. rewrite length_app in Hj. simpl in Hj.
        rewrite (Hnth best_i Hlt).
        destruct (Nat.eq_dec j (length pre)) as [-> | Hne].
        -- now rewrite Hx.
        -- rewrite Hnth by lia. apply Hmax. lia.
      * intros j Hj. rewrite !Hnth by lia. now apply Hfirst.
    + assert (E' : (nth best_i pre 0 < x)%Q).
      { apply Qnot_le_lt. intros Hle. apply Qle_bool_iff in Hle. congruence. }
      pose proof (IH (pre ++ [x])%list (length pre)) as IH'.
      rewrite Hx in IH'. apply IH'.
      split; [rewrite length_app; simpl; lia |]. split.
      * intros j Hj. rewrite length_app in Hj. simpl in Hj. rewrite Hx.
        destruct (Nat.eq_dec j (length pre)) as [-> | Hne].
        -- rewrite Hx. apply Qle_refl.
        -- rewrite Hnth by lia. apply Qlt_le_weak.
           eapply Qle_lt_trans; [apply Hmax; lia | exact E'].
      * intros j Hj. rewrite Hx, Hnth by lia.
        eapply Qle_lt_trans; [apply Hmax; lia | exact E'].
Qed.

(** The hard prediction is a class of the model, no class has a larger
    logit, and among equal largest logits it is the first. *)
Theorem argmax_first_max l : l <> [] -> first_max l (argmax l).
Proof.
  destruct l as [| x l]; [congruence |]. intros _. unfold argmax.
  apply (argmax_from_first_max l [x] O).
  split; [simpl; lia |]. split.
  - intros j Hj. simpl in Hj. replace j with O by lia. apply Qle_refl.
  - intros j Hj. lia.
Qed.

Lemma argmax_first_max_witness : first_max [0; 7; 7; 3]%Q (argmax [0; 7; 7; 3]%Q).
Proof. apply argmax_first_max. discriminate. Defined.

Lemma get_column_replace c v df :
  has_column c df = true -> get_column c (replace_column c v df) = Some v.
Proof.
  unfold has_column. induction df as [| [c' v'] df IH]; simpl; [discriminate |].
  destruct (String.eqb_spec c c') as [-> | Hne]; simpl.
  - now rewrite String.eqb_refl.
  - intros H. destruct (String.eqb_spec c c'); [congruence | now apply IH].
Qed.

Lemma get_column_replace_other c c0 v df :
  c0 <> c -> get_column c0 (replace_column c v df) = get_column c0 df.
Proof.
  intros Hne. induction df as [| [c' v'] df IH]; simpl; [reflexivity |].
  destruct (String.eqb_spec c c') as [-> | Hcc']; simpl.
  - destruct (String.eqb_spec c0 c'); [congruence | reflexivity].
  - destruct (String.eqb_spec c0 c'); [reflexivity | exact IH].
Qed.

Lemma names_replace c v df : map fst (replace_column c v df) = map fst df.
Proof.
  induction df as [| [c' v'] df IH]; simpl; [reflexivity |].
  destruct (String.eqb c c'); simpl; [reflexivity | now rewrite IH].
Qed.

Lemma get_column_app_new c c0 v (df : dataframe) :
  get_column c0 (df ++ [(c, v)])%list
  = match get_column c0 df with
    | Some x => Some x
    | None => if String.eqb c0 c then Some v else None
    end.
Proof.
  induction df as [| [c' v'] df IH]; simpl; [reflexivity |].
  destruct (String.eqb c0 c'); [reflexivity | exact IH].
Qed.

Section InferenceMore.
Variable model : cell -> list Q.
Variable softmax : list Q -> list Q.

(** [inference] writes [output.csv] and nothing else, and writes it only
    when it returns: after an exception the output directory is as it
    was. *)
Theorem inference_writes_output_only args info dir :
  exists out,
    snd (inference model softmax args info dir)
    = match fst (inference model softmax args info dir) with
      | Ok _ => <["output.csv" := out]> dir
      | Raise _ => dir
      end.
Proof.
  unfold inference. destruct (get_column "ImageID" info) as [ids |];
    [| exists []; reflexivity].
  destruct (inf_batch_size args <=? 0); [exists []; reflexivity |].
  unfold bind, lift.
  destruct (assemble _ info _) as [out | e];
    [exists out | exists []]; reflexivity.
Qed.

(** The batch size changes nothing in the result. *)
Theorem inference_any_batch_size args1 args2 info dir :
  voting_type args1 = voting_type args2 ->
  0 < inf_batch_size args1 -> 0 < inf_batch_size args2 ->
  inference model softmax args1 info dir = inference model softmax args2 info dir.
Proof.
  intros Hv H1 H2. unfold inference.
  destruct (get_column "ImageID" info) as [ids |]; [| reflexivity].
  destruct (Z.leb_spec (inf_batch_size args1) 0) as [| _]; [lia |].
  destruct (Z.leb_spec (inf_batch_size args2) 0) as [| _]; [lia |].
  rewrite !predict_in_order by lia. now rewrite Hv.
Qed.

(** A voting type that is neither ['hard'] nor ['soft'] is no error: the
    run computes the logits, uses none of them and saves the manifest as
    it read it. *)
Theorem inference_other_voting_type args info ids dir :
  voting_type args <> "hard" -> voting_type args <> "soft" ->
  0 < inf_batch_size args ->
  get_column "ImageID" info = Some ids ->
  inference model softmax args info dir = (Ok tt, <["output.csv" := info]> dir).
Proof.
  intros Hh Hs Hb Hids. unfold inference. rewrite Hids.
  destruct (Z.leb_spec (inf_batch_size args) 0) as [| _]; [lia |].
  unfold voting_of.
  destruct (String.eqb_spec (voting_type args) "hard"); [congruence |].
  destruct (String.eqb_spec (voting_type args) "soft"); [congruence |].
  reflexivity.
Qed.

(** Hard voting on any manifest: the predictions are the column [ans]
    of the output, in place of an old column [ans] or as a new last
    column, and every other column and the order of the columns are
    those of the manifest. *)
Theorem inference_hard_columns args info ids dir :
  voting_type args = "hard" ->
  0 < inf_batch_size args ->
  get_column "ImageID" info = Some ids ->
  nrows info = length ids ->
  exists out,
    inference model softmax args info dir = (Ok tt, <["output.csv" := out]> dir)
    /\ get_column "ans" out = Some (map (hard_pred model) ids)
    /\ (forall c, c <> "ans" -> get_column c out = get_column c info)
    /\ map fst out = (if has_column "ans" info then map fst info
                      else map fst info ++ ["ans"])%list.
Proof.
  intros Hv Hb Hids Hrows. unfold inference. rewrite Hids, Hv, voting_of_hard.
  destruct (Z.leb_spec (inf_batch_size args) 0) as [| _]; [lia |].
  rewrite predict_in_order by lia.
  unfold bind, lift, assemble. rewrite map_map. cbn [hd].
  unfold set_column. rewrite !length_map, Hrows, Nat.eqb_refl. cbn [negb].
  destruct (has_column "ans" info) eqn:Hans; eexists; (split; [reflexivity |]).
  - split; [now apply get_column_replace |].
    split; [intros c Hc; now apply get_column_replace_other | apply names_replace].
  - unfold has_column in Hans.
    split; [| split].
    + rewrite get_column_app_new.
      destruct (get_column "ans" info); [discriminate | reflexivity].
    + intros c Hc. rewrite get_column_app_new.
      destruct (get_column c info); [reflexivity |].
      destruct (String.eqb_spec c "ans"); [congruence | reflexivity].
    + now rewrite map_app.
Qed.

(** Soft voting names [num_classes] = 18 probability columns: with a
    model of any other number of outputs the names do not fit the
    columns, the assignment raises [ValueError] and nothing is
    written. *)
Theorem inference_soft_wrong_width args ids a dir w :
  voting_type args = "soft" ->
  0 < inf_batch_size args ->
  ids <> [] ->
  (forall image, length (softmax (model image)) = w) ->
  w <> num_classes ->
  inference model softmax args [("ImageID", ids); ("ans", a)] dir
  = (Raise ValueError, dir).
Proof.
  intros Hv Hb Hids Hw Hne.
  unfold inference. cbn [get_column String.eqb Ascii.eqb Bool.eqb].
  rewrite Hv, voting_of_soft.
  destruct (Z.leb_spec (inf_batch_size args) 0) as [| _]; [lia |].
  rewrite predict_in_order by lia.
  unfold bind, lift, assemble. cbn -[columns_name columns_of_rows].
  unfold column_stack_named. cbn [map snd app].
  destruct ids as [| i0 ids']; [congruence |].
  cbn [map columns_of_rows length]. rewrite !length_map, Hw, length_seq.
  change (length (columns_name)) with (S num_classes).
  destruct (Nat.eqb_spec (S num_classes) (S w)); [lia | reflexivity].
Qed.

End InferenceMore.


(* ===================================================================== *)
(** * Further facts: how a training run can end *)
(* ===================================================================== *)

Section DataLoaderHead.
Context {A : Type}.


End DataLoaderHead.

Section RunEnds.
Context {Params Sample Grad : Type} `{FW : Framework Params Sample Grad}.
Local Notation "'mach'" := (@machine Params Sample Grad).
Local Open Scope m_scope.

(** What one batch of [mask_train] adds to the trace. *)
Definition mask_step_events : list event :=
  [EvZeroGrad OptMask; EvForward; EvBackward MaskLoss false; EvOptStep OptMask].

Lemma mask_train_step_trace (s : mach) batch :
  grad_enabled s = true ->
  trace (snd (mask_train_step batch s)) = (trace s ++ mask_step_events)%list
  /\ params (snd (mask_train_step batch s))
     = step_of (opt s OptMask)
         (backward_of MaskLoss (params s) batch
            (zero_of (map pg_params (param_groups (opt s OptMask))) (grads s)))
         (params s)
  /\ last_epoch (snd (mask_train_step batch s)) = last_epoch s.
Proof.
  intros Hge.
  unfold mask_train_step, bind, zero_grad, forward, backward, opt_step, ret.
  simpl. rewrite Hge. simpl. repeat split.
  repeat rewrite <- app_assoc. reflexivity.
Qed.


Lemma mask_steps_trace bs : forall (s : mach),
  grad_enabled s = true ->
  trace (snd (mask_steps bs s))
  = (trace s ++ concat (map (fun _ => mask_step_events) bs))%list
  /\ grad_enabled (snd (mask_steps bs s)) = true.
Proof.
  induction bs as [| b rest IH]; intros s Hge.
  - simpl. now rewrite app_nil_r.
  - cbn [mask_steps snd map concat].
    destruct (mask_train_step_run s b Hge) as (s1 & Hrun & Hge1 & _).
    destruct (mask_train_step_trace s b Hge) as (Htr & _).
    rewrite Hrun in *. cbn [snd] in *.
    destruct (IH s1 Hge1) as (Ht & Hg). rewrite Ht, Htr.
    split; [now rewrite <- app_assoc | exact Hg].
Qed.

(** A stretch of the train loop that does not reach the end of a
    logging window reports nothing. *)
Lemma mask_train_loop_silent args epoch len_train_loader base :
  0 < log_interval args -> base mod log_interval args = 0 ->
  forall bs j w (s : mach),
    grad_enabled s = true -> 0 <= j ->
    j + Z.of_nat (length bs) < log_interval args ->
    mask_train_loop args epoch len_train_loader bs (base + j) w s
    = (Ok (window_after (fst (mask_steps bs s)) w), snd (mask_steps bs s)).
Proof.
  intros Hl Hbase.
  induction bs as [| b rest IH]; intros j w s Hge Hj Hlen; [reflexivity |].
  destruct (mask_train_step_run s b Hge) as (s1 & Hrun & Hge1 & _).
  cbn [mask_train_loop mask_steps fst snd window_after fold_left].
  rewrite Hrun. cbn [snd].
  unfold bind at 1. unfold mask_train_iter. unfold bind at 1. rewrite Hrun.
  unfold bind at 1. unfold lift. rewrite window_full_ok by lia.
  cbn [o_params o_training o_batch].
  assert (Hmod : ((base + j + 1) mod log_interval args =? 0) = false).
  { apply Z.eqb_neq. cbn [length] in Hlen.
    rewrite <- Z.add_assoc, Z.add_mod, Hbase, Z.add_0_l, Z.mod_mod by lia.
    rewrite Z.mod_small by lia. lia. }
  rewrite Hmod. unfold ret at 1.
  rewrite <- Z.add_assoc. apply IH; [exact Hge1 | lia | cbn [length] in Hlen; lia].
Qed.

(** An epoch with fewer batches than [log_interval] trains on every
    batch and logs no training loss or accuracy at all. *)
Theorem short_epoch_logs_nothing args epoch len_train_loader bs (s : mach) :
  grad_enabled s = true ->
  Z.of_nat (length bs) < log_interval args ->
  exists w s',
    mask_train_loop args epoch len_train_loader bs 0 window_reset s = (Ok w, s')
    /\ trace s' = (trace s ++ concat (map (fun _ => mask_step_events) bs))%list.
Proof.
  intros Hge Hlen.
  assert (Hl : 0 < log_interval args) by lia.
  pose proof (mask_train_loop_silent args epoch len_train_loader 0
                Hl (Zmod_0_l _) bs 0 window_reset s Hge
                (Z.le_refl 0) Hlen) as Hloop.
  rewrite Z.add_0_l in Hloop. do 2 eexists. split; [exact Hloop |].
  now apply mask_steps_trace.
Qed.








End RunEnds.


(* ===================================================================== *)
(** * Further facts: runs that complete *)
(* ===================================================================== *)

Section RunCompletes.
Context {Params Sample Grad : Type} `{FW : Framework Params Sample Grad}.
Local Notation "'mach'" := (@machine Params Sample Grad).
Local Open Scope m_scope.
















End RunCompletes.


(* ===================================================================== *)
(** * Further facts: the order of the metrics *)
(* ===================================================================== *)

Lemma flt_Fin x y : flt (Fin x) (Fin y) = true <-> (x < y)%Q.
Proof.
  simpl. rewrite negb_true_iff. split.
  - intros H. apply Qnot_le_lt. intros Hle. apply Qle_bool_iff in Hle. congruence.
  - intros H. destruct (Qle_bool y x) eqn:E; [| reflexivity].
    apply Qle_bool_iff in E. exfalso. eapply Qlt_not_le; eassumption.
Qed.

Lemma flt_irrefl a : flt a a = false.
Proof.
  destruct a; try reflexivity.
  destruct (flt (Fin q) (Fin q)) eqn:E; [| reflexivity].
  apply flt_Fin in E. exfalso. eapply Qlt_irrefl; eassumption.
Qed.

Lemma flt_trans a b c : flt a b = true -> flt b c = true -> flt a c = true.
Proof.
  destruct a, b, c; try reflexivity; try discriminate.
  rewrite !flt_Fin. apply Qlt_trans.
Qed.

Lemma flt_asym a b : flt a b = true -> flt b a = false.
Proof.
  intros H. destruct (flt b a) eqn:E; [| reflexivity].
  pose proof (flt_trans _ _ _ H E) as Haa. now rewrite flt_irrefl in Haa.
Qed.

(* ===================================================================== *)
(** * Further facts: what a finished run leaves behind *)
(* ===================================================================== *)

Section RunResults.
Context {Params Sample Grad : Type} `{FW : Framework Params Sample Grad}.
Local Notation "'mach'" := (@machine Params Sample Grad).
Local Open Scope m_scope.

Lemma bind_ok_inv {S A B} (m : M S A) (k : A -> M S B) s b s' :
  bind m k s = (Ok b, s') ->
  exists a s1, m s = (Ok a, s1) /\ k a s1 = (Ok b, s').
Proof.
  unfold bind. destruct (m s) as [[a | e] s1]; [eauto | discriminate].
Qed.

(** In every epoch that completes the best accuracy of [mask_train]
    does not decrease and the best combined loss of [gender_age_train]
    does not increase. *)
Theorem best_never_worsens args train_set val_set epoch (s : mach) :
  (forall b b' s',
      mask_epoch args train_set val_set epoch b s = (Ok b', s') ->
      flt (best_val_acc b') (best_val_acc b) = false)
  /\ (forall b b' s',
         gender_age_epoch args train_set val_set epoch b s = (Ok b', s') ->
         flt (best_val_loss_ga b) (best_val_loss_ga b') = false).
Proof.
  split; intros b b' s' H.
  - apply mask_epoch_ok in H. cbv zeta in H. destruct H as (_ & ->).
    destruct (fgt _ (best_val_acc b)) eqn:E; [| apply flt_irrefl].
    unfold fgt in E. now apply flt_asym.
  - apply gender_age_epoch_ok in H. cbv zeta in H. destruct H as (_ & ->).
    destruct (flt _ (best_val_loss_ga b)) eqn:E; [| apply flt_irrefl].
    now apply flt_asym.
Qed.

(** [best.pth] against the best accuracy: the file holds parameters
    whose validation accuracy is the best accuracy, which is above 0; or
    there is no file and the best accuracy is still 0. *)
Definition best_is_saved (args : Args) (val_set : list Sample) (b : best)
           (f : gmap string (blob Params)) : Prop :=
  match load_model f with
  | Some p => best_val_acc b = mask_val_acc args p val_set
              /\ fgt (best_val_acc b) fzero = true
  | None => best_val_acc b = fzero
  end.

Lemma load_model_after (improved : bool) (p : Params) (f : gmap string (blob Params)) :
  load_model (<["last.pth" := Checkpoint p]>
                (if improved then <["best.pth" := Checkpoint p]> f else f))
  = if improved then Some p else load_model f.
Proof.
  unfold load_model. rewrite lookup_insert_ne by discriminate.
  destruct improved; [now rewrite lookup_insert_eq | reflexivity].
Qed.

Lemma best_is_saved_epoch args train_set val_set epoch b (s : mach) b' s' :
  mask_epoch args train_set val_set epoch b s = (Ok b', s') ->
  best_is_saved args val_set b (files s) ->
  best_is_saved args val_set b' (files s').
Proof.
  intros H Hinv. apply mask_epoch_ok in H. cbv zeta in H. destruct H as (Hf & Hb).
  unfold best_is_saved in *. rewrite Hf, load_model_after, Hb.
  destruct (fgt (mask_val_acc args (params s') val_set) (best_val_acc b)) eqn:E;
    [| exact Hinv].
  split; [reflexivity |].
  unfold fgt in *. destruct (load_model (files s)) as [p |].
  - destruct Hinv as (_ & Hpos). eapply flt_trans; eassumption.
  - now rewrite Hinv in E.
Qed.

Lemma best_is_saved_epochs args train_set val_set n :
  forall epoch b (s : mach) b' s',
    mask_epochs n args train_set val_set epoch b s = (Ok b', s') ->
    best_is_saved args val_set b (files s) ->
    best_is_saved args val_set b' (files s').
Proof.
  induction n as [| n IH]; intros epoch b s b' s' H Hinv.
  - cbn in H. now injection H as <- <-.
  - cbn [mask_epochs] in H. apply bind_ok_inv in H as (b1 & s1 & Hep & Hrest).
    eapply IH; [exact Hrest |]. eapply best_is_saved_epoch; eassumption.
Qed.

(** After a run of [mask_train] in a directory that had no [best.pth]:
    what [load_model] reads back is a set of parameters whose validation
    accuracy is the best accuracy of the run; it finds no file exactly
    when no epoch had an accuracy above 0. *)
Theorem best_checkpoint_is_best args train_set val_set (s : mach) b s' :
  mask_train args train_set val_set s = (Ok b, s') ->
  files s !! "best.pth" = None ->
  match load_model (files s') with
  | Some p => best_val_acc b = mask_val_acc args p val_set
              /\ fgt (best_val_acc b) fzero = true
  | None => best_val_acc b = fzero
  end.
Proof.
  intros H Hfresh. unfold mask_train in H.
  apply bind_ok_inv in H as ([] & s1 & H1 & H).
  apply bind_ok_inv in H as ([] & s2 & H2 & H).
  apply bind_ok_inv in H as ([] & s3 & H3 & H).
  apply bind_ok_inv in H as ([] & s4 & H4 & H).
  assert (Hf : files s4 = <["config.json" := ConfigJson args]> (files s)).
  { unfold check_loader in H1, H2.
    destruct (batch_size args <=? 0); [discriminate |]. injection H1 as <-.
    destruct (valid_batch_size args <=? 0); [discriminate |]. injection H2 as <-.
    injection H3 as <-. injection H4 as <-. reflexivity. }
  change (best_is_saved args val_set b (files s')).
  eapply best_is_saved_epochs; [exact H |].
  unfold best_is_saved, load_model. rewrite Hf.
  rewrite lookup_insert_ne by discriminate. now rewrite Hfresh.
Qed.

(** The same for [gender_age_train], on the combined loss. *)
Definition best_ga_is_saved (args : Args) (val_set : list Sample) (b : best_ga)
           (f : gmap string (blob Params)) : Prop :=
  match load_model f with
  | Some p => best_val_loss_ga b = gender_age_val_loss args p val_set
              /\ flt (best_val_loss_ga b) np_inf = true
  | None => best_val_loss_ga b = np_inf
  end.

Lemma best_ga_is_saved_epochs args train_set val_set n :
  forall epoch b (s : mach) b' s',
    gender_age_epochs n args train_set val_set epoch b s = (Ok b', s') ->
    best_ga_is_saved args val_set b (files s) ->
    best_ga_is_saved args val_set b' (files s').
Proof.
  induction n as [| n IH]; intros epoch b s b' s' H Hinv.
  - cbn in H. now injection H as <- <-.
  - cbn [gender_age_epochs] in H. apply bind_ok_inv in H as (b1 & s1 & Hep & Hrest).
    eapply IH; [exact Hrest |].
    apply gender_age_epoch_ok in Hep. cbv zeta in Hep. destruct Hep as (Hf & Hb).
    unfold best_ga_is_saved in *. rewrite Hf, load_model_after, Hb.
    destruct (flt (gender_age_val_loss args (params s1) val_set) (best_val_loss_ga b))
      eqn:E; [| exact Hinv].
    split; [reflexivity |].
    destruct (load_model (files s)) as [p |].
    + destruct Hinv as (_ & Hfin). eapply flt_trans; eassumption.
    + now rewrite Hinv in E.
Qed.

(** After a run of [gender_age_train] in a directory that had no
    [best.pth]: what [load_model] reads back is a set of parameters whose
    combined validation loss is the best one of the run; it finds no file
    exactly when no epoch had a combined loss below [+inf] (every one was
    [nan] or infinite). *)
Theorem best_checkpoint_is_best_ga args train_set val_set (s : mach) b s' :
  gender_age_train args train_set val_set s = (Ok b, s') ->
  files s !! "best.pth" = None ->
  match load_model (files s') with
  | Some p => best_val_loss_ga b = gender_age_val_loss args p val_set
              /\ flt (best_val_loss_ga b) np_inf = true
  | None => best_val_loss_ga b = np_inf
  end.
Proof.
  intros H Hfresh. unfold gender_age_train in H.
  apply bind_ok_inv in H as ([] & s1 & H1 & H).
  apply bind_ok_inv in H as ([] & s2 & H2 & H).
  apply bind_ok_inv in H as ([] & s3 & H3 & H).
  apply bind_ok_inv in H as ([] & s4 & H4 & H).
  apply bind_ok_inv in H as ([] & s5 & H5 & H).
  assert (Hf : files s5 = <["config.json" := ConfigJson args]> (files s)).
  { unfold check_loader in H1, H2.
    destruct (batch_size args <=? 0); [discriminate |]. injection H1 as <-.
    destruct (valid_batch_size args <=? 0); [discriminate |]. injection H2 as <-.
    injection H3 as <-. injection H4 as <-. injection H5 as <-. reflexivity. }
  change (best_ga_is_saved args val_set b (files s')).
  eapply best_ga_is_saved_epochs; [exact H |].
  unfold best_ga_is_saved, load_model. rewrite Hf.
  rewrite lookup_insert_ne by discriminate. now rewrite Hfresh.
Qed.

(** *** The schedulers *)

Definition same_sched (s s' : mach) : Prop := last_epoch s' = last_epoch s.

Lemma same_sched_bind {A B} (m : M mach A) (k : A -> M mach B) :
  steps same_sched m -> (forall a, steps same_sched (k a)) ->
  steps same_sched (bind m k).
Proof.
  intros Hm Hk.
  apply (steps_bind same_sched same_sched same_sched);
    [unfold same_sched; congruence | trivial | exact Hm | exact Hk].
Qed.

Ltac same_sched_block :=
  repeat first
    [ apply steps_ret; intros ?; exact eq_refl
    | apply steps_lift; intros ?; exact eq_refl
    | apply steps_raise; intros ?; exact eq_refl
    | apply same_sched_bind; [| intros ?]
    | intros ?; exact eq_refl ].

Lemma same_sched_backward l o r : steps same_sched (backward l o r).
Proof. intros s. unfold backward. destruct (graph s); exact eq_refl. Qed.

Lemma same_sched_add_figure fig epoch : steps same_sched (add_figure fig epoch).
Proof.
  intros s. unfold add_figure. destruct (fig || add_figure_none_ok); exact eq_refl.
Qed.

Lemma same_sched_grid_image (b : list Sample) : steps same_sched (grid_image b).
Proof.
  intros s. unfold grid_image. destruct (16 <=? Z.of_nat (length b)); exact eq_refl.
Qed.

Lemma same_sched_mask_train_loop args epoch len_train_loader bs :
  forall idx w, steps same_sched (mask_train_loop args epoch len_train_loader bs idx w).
Proof.
  induction bs as [| b rest IH]; intros idx w; cbn [mask_train_loop].
  - apply steps_ret. intros ?; exact eq_refl.
  - apply same_sched_bind; [| intros w'; apply IH].
    unfold mask_train_iter, mask_train_step.
    apply same_sched_bind.
    + apply same_sched_bind; [intros ?; exact eq_refl | intros _].
      apply same_sched_bind; [intros ?; exact eq_refl | intros o].
      apply same_sched_bind; [apply same_sched_backward | intros _].
      same_sched_block.
    + intros o. apply same_sched_bind; [apply steps_lift; intros ?; exact eq_refl |].
      intros [|]; same_sched_block.
Qed.

Lemma same_sched_gender_age_train_loop args epoch len_train_loader bs :
  forall idx w,
    steps same_sched (gender_age_train_loop args epoch len_train_loader bs idx w).
Proof.
  induction bs as [| b rest IH]; intros idx w; cbn [gender_age_train_loop].
  - apply steps_ret. intros ?; exact eq_refl.
  - apply same_sched_bind; [| intros w'; apply IH].
    unfold gender_age_train_iter, gender_age_train_step.
    apply same_sched_bind.
    + apply same_sched_bind; [intros ?; exact eq_refl | intros _].
      apply same_sched_bind; [intros ?; exact eq_refl | intros _].
      apply same_sched_bind; [intros ?; exact eq_refl | intros o].
      apply same_sched_bind; [apply same_sched_backward | intros _].
      apply same_sched_bind; [apply same_sched_backward | intros _].
      same_sched_block.
    + intros o. apply same_sched_bind; [apply steps_lift; intros ?; exact eq_refl |].
      intros [|]; same_sched_block.
Qed.

Lemma same_sched_mask_val_loop bs :
  forall v, steps same_sched (mask_val_loop bs v).
Proof.
  induction bs as [| b rest IH]; intros v; cbn [mask_val_loop].
  - apply steps_ret. intros ?; exact eq_refl.
  - apply same_sched_bind; [intros ?; exact eq_refl | intros o].
    apply same_sched_bind; [| intros fig; apply IH].
    destruct (figure v); [apply steps_ret; intros ?; exact eq_refl
                         | apply same_sched_grid_image].
Qed.

Lemma same_sched_gender_age_val_loop bs :
  forall v, steps same_sched (gender_age_val_loop bs v).
Proof.
  induction bs as [| b rest IH]; intros v; cbn [gender_age_val_loop].
  - apply steps_ret. intros ?; exact eq_refl.
  - apply same_sched_bind; [intros ?; exact eq_refl | intros o].
    apply same_sched_bind; [| intros fig; apply IH].
    destruct (figure_ga v); [apply steps_ret; intros ?; exact eq_refl
                            | apply same_sched_grid_image].
Qed.

Lemma same_sched_mask_validate args val_set epoch b :
  steps same_sched (mask_validate args val_set epoch b).
Proof.
  unfold mask_validate.
  apply same_sched_bind; [intros ?; exact eq_refl | intros prev].
  apply same_sched_bind; [intros ?; exact eq_refl | intros _].
  apply same_sched_bind; [intros ?; exact eq_refl | intros _].
  apply same_sched_bind; [apply same_sched_mask_val_loop | intros v].
  apply same_sched_bind; [destruct (fgt _ _); same_sched_block | intros ?].
  apply same_sched_bind; [intros ?; exact eq_refl | intros _].
  apply same_sched_bind; [intros ?; exact eq_refl | intros _].
  apply same_sched_bind; [intros ?; exact eq_refl | intros _].
  apply same_sched_bind; [intros ?; exact eq_refl | intros _].
  apply same_sched_bind; [apply same_sched_add_figure | intros _].
  same_sched_block.
Qed.

Lemma same_sched_gender_age_validate args val_set epoch b :
  steps same_sched (gender_age_validate args val_set epoch b).
Proof.
  unfold gender_age_validate.
  apply same_sched_bind; [intros ?; exact eq_refl | intros prev].
  apply same_sched_bind; [intros ?; exact eq_refl | intros _].
  apply same_sched_bind; [intros ?; exact eq_refl | intros _].
  apply same_sched_bind; [apply same_sched_gender_age_val_loop | intros v].
  apply same_sched_bind; [destruct (flt _ _); same_sched_block | intros ?].
  apply same_sched_bind; [intros ?; exact eq_refl | intros _].
  apply same_sched_bind; [intros ?; exact eq_refl | intros _].
  apply same_sched_bind; [intros ?; exact eq_refl | intros _].
  apply same_sched_bind; [intros ?; exact eq_refl | intros _].
  apply same_sched_bind; [intros ?; exact eq_refl | intros _].
  apply same_sched_bind; [apply same_sched_add_figure | intros _].
  same_sched_block.
Qed.

Lemma steps_at {A} (R : mach -> mach -> Prop) (m : M mach A) s r s' :
  steps R m -> m s = (r, s') -> R s s'.
Proof. intros H E. specialize (H s). now rewrite E in H. Qed.

Lemma mask_epochs_sched args train_set val_set n :
  forall epoch b (s : mach) b' s',
    mask_epochs n args train_set val_set epoch b s = (Ok b', s') ->
    last_epoch s' OptMask = last_epoch s OptMask + Z.of_nat n.
Proof.
  induction n as [| n IH]; intros epoch b s b' s' H.
  - cbn in H. injection H as <- <-. lia.
  - cbn [mask_epochs] in H. apply bind_ok_inv in H as (b1 & s1 & Hep & Hrest).
    apply IH in Hrest. rewrite Hrest.
    unfold mask_epoch in Hep. apply bind_ok_inv in Hep as ([] & s2 & Hph & Hval).
    apply (steps_at same_sched _ _ _ _ (same_sched_mask_validate _ _ _ _)) in Hval.
    unfold mask_train_phase in Hph.
    apply bind_ok_inv in Hph as ([] & sa & Ha & Hph).
    apply bind_ok_inv in Hph as (w & sb & Hb & Hc).
    apply (steps_at same_sched _ _ _ _ (same_sched_mask_train_loop _ _ _ _ _ _)) in Hb.
    unfold same_sched in *. injection Ha as <-. injection Hc as <-.
    rewrite Hval. cbn in *. rewrite Hb. cbn. lia.
Qed.

Lemma gender_age_epochs_sched args train_set val_set n :
  forall epoch b (s : mach) b' s',
    gender_age_epochs n args train_set val_set epoch b s = (Ok b', s') ->
    last_epoch s' OptGender = last_epoch s OptGender + Z.of_nat n
    /\ last_epoch s' OptAge = last_epoch s OptAge + Z.of_nat n.
Proof.
  induction n as [| n IH]; intros epoch b s b' s' H.
  - cbn in H. injection H as <- <-. lia.
  - cbn [gender_age_epochs] in H. apply bind_ok_inv in H as (b1 & s1 & Hep & Hrest).
    apply IH in Hrest. destruct Hrest as (Hg & Ha'). rewrite Hg, Ha'.
    unfold gender_age_epoch in Hep. apply bind_ok_inv in Hep as ([] & s2 & Hph & Hval).
    apply (steps_at same_sched _ _ _ _ (same_sched_gender_age_validate _ _ _ _)) in Hval.
    unfold gender_age_train_phase in Hph.
    apply bind_ok_inv in Hph as ([] & sa & Ha & Hph).
    apply bind_ok_inv in Hph as (w & sb & Hb & Hc).
    apply bind_ok_inv in Hc as ([] & sc & Hc1 & Hc2).
    apply (steps_at same_sched _ _ _ _
             (same_sched_gender_age_train_loop _ _ _ _ _ _)) in Hb.
    unfold same_sched in *. injection Ha as <-. injection Hc1 as <-.
    injection Hc2 as <-.
    rewrite Hval. cbn in *. rewrite Hb. cbn. lia.
Qed.

(** Each scheduler is stepped once per epoch: after a run that
    completes its [last_epoch] is the number of epochs. *)
Theorem scheduler_steps_once_per_epoch args train_set val_set (s : mach) :
  (forall b s',
      mask_train args train_set val_set s = (Ok b, s') ->
      last_epoch s' OptMask = Z.of_nat (epochs args))
  /\ (forall b s',
         gender_age_train args train_set val_set s = (Ok b, s') ->
         last_epoch s' OptGender = Z.of_nat (epochs args)
         /\ last_epoch s' OptAge = Z.of_nat (epochs args)).
Proof.
  split; intros b s' H.
  - unfold mask_train in H.
    apply bind_ok_inv in H as ([] & s1 & H1 & H).
    apply bind_ok_inv in H as ([] & s2 & H2 & H).
    apply bind_ok_inv in H as ([] & s3 & H3 & H).
    apply bind_ok_inv in H as ([] & s4 & H4 & H).
    apply mask_epochs_sched in H. rewrite H.
    injection H3 as <-. injection H4 as <-. cbn. lia.
  - unfold gender_age_train in H.
    apply bind_ok_inv in H as ([] & s1 & H1 & H).
    apply bind_ok_inv in H as ([] & s2 & H2 & H).
    apply bind_ok_inv in H as ([] & s3 & H3 & H).
    apply bind_ok_inv in H as ([] & s4 & H4 & H).
    apply bind_ok_inv in H as ([] & s5 & H5 & H).
    apply gender_age_epochs_sched in H. destruct H as (Hg & Ha). rewrite Hg, Ha.
    injection H3 as <-. injection H4 as <-. injection H5 as <-. cbn. lia.
Qed.

(** *** Validation accuracy over a set the batches cover *)

Lemma sum_over_batches (f : list Sample -> Z) (bs : list (list Sample)) :
  (forall a b, f (a ++ b)%list = f a + f b) ->
  forall acc, fold_left Z.add (map f bs) acc = acc + f (concat bs).
Proof.
  intros Hadd. assert (Hnil : f [] = 0) by (pose proof (Hadd [] []) as H; simpl in H; lia).
  induction bs as [| b rest IH]; intros acc; simpl; [lia |].
  rewrite IH, Hadd. lia.
Qed.

(** When the validation batch size divides the size of the validation
    set, and the count of right predictions of a batch is the sum of the
    counts of its parts, the accuracy an epoch reports is the count over
    the whole validation set divided by its size. *)
Theorem val_accuracy_exact_when_divisible args (val_set : list Sample) epoch b
        (s : mach) b' s' :
  mask_validate args val_set epoch b s = (Ok b', s') ->
  0 < valid_batch_size args ->
  (length val_set mod Z.to_nat (valid_batch_size args) = 0)%nat ->
  (forall x y, matches_of MaskTask (params s) false (x ++ y)%list
               = matches_of MaskTask (params s) false x
                 + matches_of MaskTask (params s) false y) ->
  exists evs,
    trace s' = (trace s ++ evs)%list
    /\ In (EvScalar "Val/accuracy"
             (np_div (of_Z (matches_of MaskTask (params s) false val_set))
                     (of_Z (Z.of_nat (length val_set)))) epoch) evs.
Proof.
  intros H Hv Hdiv Hadd.
  apply mask_validate_ok in H. cbv zeta in H.
  destruct H as (_ & _ & _ & evs & Ht & _ & Hin).
  exists evs. split; [exact Ht |].
  assert (Hacc : mask_val_acc args (params s) val_set
                 = np_div (of_Z (matches_of MaskTask (params s) false val_set))
                          (of_Z (Z.of_nat (length val_set)))).
  { unfold mask_val_acc, np_sum_int, val_batches.
    rewrite (sum_over_batches _ _ Hadd).
    destruct (batches_drop_last (Z.to_nat (valid_batch_size args)) val_set ltac:(lia))
      as (Hc & _). rewrite Hc.
    apply Nat.Div0.div_exact in Hdiv. rewrite <- Hdiv, firstn_all.
    now rewrite Z.add_0_l. }
  now rewrite <- Hacc.
Qed.

End RunResults.


(* ===================================================================== *)
(** * Further facts: the figure of sample images *)
(* ===================================================================== *)

Lemma n_grid_fits (n : nat) : (n <= n_grid n * n_grid n)%nat.
Proof.
  unfold n_grid. pose proof (Nat.sqrt_spec n (Nat.le_0_l n)) as [Hlo Hhi].
  destruct (Nat.eqb_spec (Nat.sqrt n * Nat.sqrt n) n); simpl in *; lia.
Qed.

(** The grid is the smallest square one that has room for [n] images. *)
Lemma n_grid_least (n k : nat) : (n <= k * k)%nat -> (n_grid n <= k)%nat.
Proof.
  intros H. unfold n_grid.
  pose proof (Nat.sqrt_spec n (Nat.le_0_l n)) as [Hlo Hhi].
  destruct (Nat.eqb_spec (Nat.sqrt n * Nat.sqrt n) n) as [E | E].
  - destruct (Nat.le_gt_cases (Nat.sqrt n) k); [assumption | nia].
  - destruct (Nat.le_gt_cases (S (Nat.sqrt n)) k); [assumption | nia].
Qed.

Lemma enumerate_indices {A} (l : list A) :
  map (fun ic => (fst ic + 1)%nat) (combine (seq 0 (length l)) l) = seq 1 (length l).
Proof.
  assert (H : forall k, map (fun ic : nat * A => (fst ic + 1)%nat)
                            (combine (seq k (length l)) l) = seq (k + 1) (length l)).
  { induction l as [| x l IH]; intros k; simpl; [reflexivity |].
    f_equal. rewrite IH. f_equal. }
  apply (H 0%nat).
Qed.

(** [mask_grid_image] (and [gender_age_grid_image], which is the same
    code) refuses a batch of fewer than [n] images with an
    [AssertionError]; otherwise the figure has [n] subplots, numbered
    1 to [n], every number within the [n_grid] x [n_grid] grid, and
    every image it shows is taken at a position of the batch. *)
Theorem mask_grid_image_fits batch_size n shuffle drawn :
  (shuffle = true -> length drawn = n /\ Forall (fun c => (c < batch_size)%nat) drawn) ->
  match mask_grid_image batch_size n shuffle drawn with
  | Raise e => e = AssertionError /\ (batch_size < n)%nat
  | Ok plots =>
      (n <= batch_size)%nat
      /\ map sp_index plots = seq 1 n
      /\ Forall (fun p => (1 <= sp_index p <= sp_grid p * sp_grid p)%nat
                          /\ (sp_choice p < batch_size)%nat) plots
  end
  /\ gender_age_grid_image batch_size n shuffle drawn
     = mask_grid_image batch_size n shuffle drawn.
Proof.
  intros Hdrawn. split; [| reflexivity]. unfold mask_grid_image.
  destruct (Nat.leb_spec n batch_size) as [Hle | Hgt]; [| split; [reflexivity | lia]].
  set (choices := if shuffle then drawn else seq 0 n).
  assert (Hlen : length choices = n).
  { subst choices. destruct shuffle; [now apply Hdrawn | apply length_seq]. }
  assert (Hin : forall c, In c choices -> (c < batch_size)%nat).
  { subst choices. intros c Hc. destruct shuffle.
    - destruct (Hdrawn eq_refl) as (_ & Hall).
      rewrite List.Forall_forall in Hall. now apply Hall.
    - apply in_seq in Hc. lia. }
  split; [exact Hle |]. split.
  - rewrite map_map. cbn [sp_index]. rewrite enumerate_indices. now rewrite Hlen.
  - apply List.Forall_forall. intros p Hp. apply in_map_iff in Hp as ([i c] & <- & Hic).
    cbn [sp_index sp_grid sp_choice fst snd].
    pose proof (in_combine_l _ _ _ _ Hic) as Hi. apply in_seq in Hi.
    pose proof (in_combine_r _ _ _ _ Hic) as Hc.
    pose proof (n_grid_fits n). split; [lia | now apply Hin].
Qed.

Lemma mask_grid_image_fits_witness :
  match mask_grid_image 64 16 false [] with
  | Ok plots => map sp_index plots = seq 1 16 /\ map sp_grid plots = repeat 4%nat 16
  | Raise _ => False
  end.
Proof.
  pose proof (mask_grid_image_fits 64 16 false [] ltac:(discriminate)) as [H _].
  destruct (mask_grid_image 64 16 false []) as [plots |] eqn:E; [| destruct H; lia].
  destruct H as (_ & Hidx & _). split; [exact Hidx |].
  injection E as <-. reflexivity.
Defined.

(** The validation loops call the two functions with [n=16] on their
    first batch: the assertion is the one [grid_image] makes. *)
Lemma grid_image_assertion {Params Sample Grad : Type}
      `{FW : Framework Params Sample Grad}
      (batch : list Sample) (s : @machine Params Sample Grad) shuffle drawn :
  grid_image batch s
  = (match mask_grid_image (length batch) 16 shuffle drawn with
     | Ok _ => Ok true
     | Raise e => Raise e
     end, s).
Proof.
  unfold grid_image, mask_grid_image.
  destruct (Nat.leb_spec 16 (length batch)) as [Hle | Hgt];
    destruct (Z.leb_spec 16 (Z.of_nat (length batch))) as [Hle' | Hgt'];
    try lia; reflexivity.
Qed.


(* ===================================================================== *)
(** * The small instance, on the further properties *)
(* ===================================================================== *)


(** A model of [num_classes] outputs, the same for every image. *)
Definition flat_model (image : cell) : list Q := repeat (1 # 18)%Q 18.

Lemma inference_any_batch_size_witness :
  inference two_images (fun row => row) (inf_args "hard")
    [("ImageID", [CStr "a.jpg"; CStr "b.jpg"])] ∅
  = inference two_images (fun row => row)
      {| inf_batch_size := 1; voting_type := "hard" |}
      [("ImageID", [CStr "a.jpg"; CStr "b.jpg"])] ∅.
Proof.
  exact (inference_any_batch_size two_images (fun row => row) (inf_args "hard")
           {| inf_batch_size := 1; voting_type := "hard" |}
           [("ImageID", [CStr "a.jpg"; CStr "b.jpg"])] ∅
           eq_refl eq_refl eq_refl).
Defined.

Lemma inference_other_voting_type_witness :
  inference two_images (fun row => row) (inf_args "mean")
    [("ImageID", [CStr "a.jpg"; CStr "b.jpg"])] ∅
  = (Ok tt, {["output.csv" := [("ImageID", [CStr "a.jpg"; CStr "b.jpg"])]]}).
Proof.
  exact (inference_other_voting_type two_images (fun row => row) (inf_args "mean")
           [("ImageID", [CStr "a.jpg"; CStr "b.jpg"])]
           [CStr "a.jpg"; CStr "b.jpg"] ∅
           ltac:(discriminate) ltac:(discriminate) eq_refl eq_refl).
Defined.

Lemma inference_hard_columns_witness :
  exists out,
    inference two_images (fun row => row) (inf_args "hard")
      [("ImageID", [CStr "a.jpg"; CStr "b.jpg"]); ("ans", [CInt 0; CInt 0])] ∅
    = (Ok tt, <["output.csv" := out]> ∅)
    /\ get_column "ans" out = Some [CInt 0; CInt 2]
    /\ map fst out = ["ImageID"; "ans"].
Proof.
  destruct (inference_hard_columns two_images (fun row => row) (inf_args "hard")
              [("ImageID", [CStr "a.jpg"; CStr "b.jpg"]); ("ans", [CInt 0; CInt 0])]
              [CStr "a.jpg"; CStr "b.jpg"] ∅
              eq_refl eq_refl eq_refl eq_refl)
    as (out & Hrun & Hans & _ & Hnames).
  exists out. split; [exact Hrun |]. split; [exact Hans | exact Hnames].
Defined.

Lemma inference_soft_table_witness :
  exists out,
    inference flat_model (fun row => row) (inf_args "soft")
      [("ImageID", [CStr "a.jpg"]); ("ans", [CInt 0])] ∅
    = (Ok tt, <["output.csv" := out]> ∅)
    /\ map fst out = columns_name
    /\ has_column "ans" out = false.
Proof.
  destruct (inference_soft_table flat_model (fun row => row) (inf_args "soft")
              [CStr "a.jpg"] [CInt 0] ∅
              eq_refl eq_refl ltac:(discriminate) (fun _ => eq_refl))
    as (Hrun & Hnames & Hans & _).
  eexists. split; [exact Hrun |]. split; [exact Hnames | exact Hans].
Defined.

Lemma inference_soft_wrong_width_witness :
  inference (fun _ => [5; 1; 0]%Q) (fun row => row) (inf_args "soft")
    [("ImageID", [CStr "a.jpg"]); ("ans", [CInt 0])] ∅
  = (Raise ValueError, ∅).
Proof.
  exact (inference_soft_wrong_width (fun _ => [5; 1; 0]%Q) (fun row => row)
           (inf_args "soft") [CStr "a.jpg"] [CInt 0] ∅ 3%nat
           eq_refl eq_refl ltac:(discriminate) (fun _ => eq_refl)
           ltac:(discriminate)).
Defined.


Lemma short_epoch_logs_nothing_witness :
  exists w s',
    @mask_train_loop nat bool nat (toy true) (toy_args 2 16 1) 0 1
      [[true; false]] 0 window_reset toy_start = (Ok w, s')
    /\ trace s' = mask_step_events.
Proof.
  destruct (@short_epoch_logs_nothing nat bool nat (toy true) (toy_args 2 16 1)
              0 1 [[true; false]] toy_start eq_refl eq_refl)
    as (w & s' & Hrun & Htr).
  exists w, s'. split; [exact Hrun |]. rewrite Htr. reflexivity.
Defined.





Lemma best_never_worsens_witness :
  exists b' s',
    @mask_epoch nat bool nat (toy true) (toy_args 2 16 1)
      (repeat true 4) (repeat true 16) 0 mask_best_init toy_start = (Ok b', s')
    /\ flt (best_val_acc b') (best_val_acc mask_best_init) = false.
Proof.
  eassert (E : @mask_epoch nat bool nat (toy true) (toy_args 2 16 1)
                 (repeat true 4) (repeat true 16) 0 mask_best_init toy_start
               = (Ok _, _)) by (vm_compute; reflexivity).
  do 2 eexists. split; [exact E |].
  exact (proj1 (@best_never_worsens nat bool nat (toy true) (toy_args 2 16 1)
                  (repeat true 4) (repeat true 16) 0 toy_start) _ _ _ E).
Defined.

Lemma best_checkpoint_is_best_witness :
  exists b s' p,
    @mask_train nat bool nat (toy true) (toy_args 2 16 1)
      (repeat true 4) (repeat true 16) toy_start = (Ok b, s')
    /\ load_model (files s') = Some p
    /\ best_val_acc b
       = @mask_val_acc nat bool nat (toy true) (toy_args 2 16 1) p (repeat true 16).
Proof.
  eassert (E : @mask_train nat bool nat (toy true) (toy_args 2 16 1)
                 (repeat true 4) (repeat true 16) toy_start
               = (Ok _, _)) by (vm_compute; reflexivity).
  pose proof (@best_checkpoint_is_best nat bool nat (toy true) (toy_args 2 16 1)
                (repeat true 4) (repeat true 16) toy_start _ _ E eq_refl) as H.
  do 3 eexists. split; [exact E |].
  split; [vm_compute; reflexivity |]. exact (proj1 H).
Defined.

Lemma best_checkpoint_is_best_ga_witness :
  exists b s' p,
    @gender_age_train nat bool nat (toy true) (toy_args 2 16 1)
      (repeat true 4) (repeat true 16) toy_start = (Ok b, s')
    /\ load_model (files s') = Some p
    /\ best_val_loss_ga b
       = @gender_age_val_loss nat bool nat (toy true) (toy_args 2 16 1) p
           (repeat true 16).
Proof.
  eassert (E : @gender_age_train nat bool nat (toy true) (toy_args 2 16 1)
                 (repeat true 4) (repeat true 16) toy_start
               = (Ok _, _)) by (vm_compute; reflexivity).
  pose proof (@best_checkpoint_is_best_ga nat bool nat (toy true) (toy_args 2 16 1)
                (repeat true 4) (repeat true 16) toy_start _ _ E eq_refl) as H.
  do 3 eexists. split; [exact E |].
  split; [vm_compute; reflexivity |]. exact (proj1 H).
Defined.

Lemma scheduler_steps_once_per_epoch_witness :
  exists b s',
    @mask_train nat bool nat (toy true) (toy_args 2 16 3)
      (repeat true 4) (repeat true 16) toy_start = (Ok b, s')
    /\ last_epoch s' OptMask = 3.
Proof.
  eassert (E : @mask_train nat bool nat (toy true) (toy_args 2 16 3)
                 (repeat true 4) (repeat true 16) toy_start
               = (Ok _, _)) by (vm_compute; reflexivity).
  do 2 eexists. split; [exact E |].
  exact (proj1 (@scheduler_steps_once_per_epoch nat bool nat (toy true)
                  (toy_args 2 16 3) (repeat true 4) (repeat true 16) toy_start)
           _ _ E).
Defined.

Lemma val_accuracy_exact_when_divisible_witness :
  exists b' s' evs,
    @mask_validate nat bool nat (toy true) (toy_args 2 16 1)
      (repeat true 30 ++ [false; false]) 0 mask_best_init toy_start = (Ok b', s')
    /\ trace s' = evs
    /\ In (EvScalar "Val/accuracy" (np_div (of_Z 30) (of_Z 32)) 0) evs.
Proof.
  eassert (E : @mask_validate nat bool nat (toy true) (toy_args 2 16 1)
                 (repeat true 30 ++ [false; false]) 0 mask_best_init toy_start
               = (Ok _, _)) by (vm_compute; reflexivity).
  destruct (@val_accuracy_exact_when_divisible nat bool nat (toy true)
              (toy_args 2 16 1) (repeat true 30 ++ [false; false]) 0
              mask_best_init toy_start _ _ E eq_refl eq_refl
              (fun x y => eq_trans
                            (f_equal Z.of_nat (count_occ_app bool_dec x y true))
                            (Nat2Z.inj_add _ _)))
    as (evs & Htr & Hin).
  do 3 eexists. split; [exact E |]. split; [exact Htr | exact Hin].
Defined.
